(** * sst-hono-apigw-resourcepolicy: the resource policy of the gateway and
      the /debug caller-identity handler

    A shallow embedding of [sst.config.ts] (the [run] function: reading the
    allow-list, building the resource policy, the [transform.api] callback)
    and of the two [/debug] handlers, together with the fragment of
    JavaScript they rest on: strings as sequences of UTF-16 code units,
    numbers as binary64 values, [JSON.stringify], [JSON.parse],
    [String.prototype.split], [String.prototype.trim] and [String(v)]. *)

From Stdlib Require Import ZArith NArith Ascii String.
From stdpp Require Import gmap strings list fin_maps.

Local Open Scope Z_scope.
Set Warnings "-register-all".

(** ** JavaScript strings *)

(** A JavaScript string is a sequence of 16-bit code units. *)
Abbreviation jsstring := (list N).

(** The code units of an ASCII literal of the source. *)
Definition js (s : string) : jsstring :=
  N_of_ascii <$> list_ascii_of_string s.

Module Ch.
Definition quote : N := 34.       (* the double quote *)
Definition backslash : N := 92.
Definition slash : N := 47.
Definition comma : N := 44.
Definition colon : N := 58.
Definition lbracket : N := 91.
Definition rbracket : N := 93.
Definition lbrace : N := 123.
Definition rbrace : N := 125.
Definition minus : N := 45.
Definition plus : N := 43.
Definition dot : N := 46.
Definition zero : N := 48.
Definition nine : N := 57.
End Ch.

(** ** JavaScript numbers: binary64 *)

(** [Finite neg m e] is (-1)^neg * m * 2^e, kept normalised: either
    2^52 <= m < 2^53 and -1074 <= e <= 971, or m < 2^52 and e = -1074. *)
Inductive number :=
| NaN
| Infinity (neg : bool)
| Zero (neg : bool)
| Finite (neg : bool) (m : positive) (e : Z).

#[global] Instance number_eq_dec : EqDecision number.
Proof. solve_decision. Defined.

(** The fraction a/b scaled by 2^-e, as a fraction. *)
Definition scaled (a b e : Z) : Z * Z :=
  if 0 <=? e then (a, b * 2 ^ e) else (a * 2 ^ (- e), b).

(** The binary64 value nearest to a/b (0 <= a, 0 < b), ties to even:
    the rounding of a numeric literal to a Number value. *)
Definition to_double (neg : bool) (a b : Z) : number :=
  if a =? 0 then Zero neg else
  let e1 := Z.log2 a - Z.log2 b - 52 in
  let '(n1, d1) := scaled a b e1 in
  let e2 := if n1 / d1 <? 2 ^ 52 then e1 - 1 else e1 in
  let e := Z.max e2 (-1074) in
  let '(n, d) := scaled a b e in
  let q := n / d in
  let r := n mod d in
  let q' := if 2 * r <? d then q
            else if 2 * r =? d then (if Z.even q then q else q + 1)
            else q + 1 in
  let '(m, e') := if q' =? 2 ^ 53 then (2 ^ 52, e + 1) else (q', e) in
  if m =? 0 then Zero neg
  else if 971 <? e' then Infinity neg
  else Finite neg (Z.to_pos m) e'.

(** a * 10^x as a fraction. *)
Definition times_pow10 (a x : Z) : Z * Z :=
  if 0 <=? x then (a * 10 ^ x, 1) else (a, 10 ^ (- x)).

Definition decimal_to_double (neg : bool) (digits x : Z) : number :=
  let '(a, b) := times_pow10 digits x in to_double neg a b.

(** Decimal digits of a natural number, most significant first. *)
Fixpoint uint_units (u : Decimal.uint) : jsstring :=
  match u with
  | Decimal.Nil => []
  | Decimal.D0 r => 48%N :: uint_units r
  | Decimal.D1 r => 49%N :: uint_units r
  | Decimal.D2 r => 50%N :: uint_units r
  | Decimal.D3 r => 51%N :: uint_units r
  | Decimal.D4 r => 52%N :: uint_units r
  | Decimal.D5 r => 53%N :: uint_units r
  | Decimal.D6 r => 54%N :: uint_units r
  | Decimal.D7 r => 55%N :: uint_units r
  | Decimal.D8 r => 56%N :: uint_units r
  | Decimal.D9 r => 57%N :: uint_units r
  end.

Definition decimal_units (z : Z) : jsstring :=
  uint_units (N.to_uint (Z.to_N z)).

(** The least n from [n] upwards with a/b < 10^n. *)
Fixpoint magnitude (fuel : nat) (a b n : Z) : Z :=
  match fuel with
  | O => n
  | S fuel' =>
      let '(p, q) := times_pow10 b n in
      if a * q <? p then n else magnitude fuel' a b (n + 1)
  end.

(** Number::toString, step 5: the shortest digit string s (k digits) and
    the exponent n with s * 10^(n-k) rounding to the value m * 2^e; of two
    candidates of that length, the one nearer to the value. *)
Fixpoint shortest_digits (fuel : nat) (m : positive) (e : Z) (a b n k : Z)
  : Z * Z * Z :=
  let '(p, q) := times_pow10 a (k - n) in
  let lo := p / (q * b) in
  let hi := lo + 1 in
  let ok s := bool_decide (decimal_to_double false s (n - k) = Finite false m e) in
  (* twice the distance to each candidate, over the common denominator *)
  let dlo := p - lo * (q * b) in
  let dhi := hi * (q * b) - p in
  let pick_hi := if hi =? 10 ^ k then (10 ^ (k - 1), k, n + 1) else (hi, k, n) in
  match fuel with
  | O => (lo, k, n)
  | S fuel' =>
      match ok lo, ok hi with
      | true, true =>
          if dlo <? dhi then (lo, k, n)
          else if dhi <? dlo then pick_hi
          else if Z.even lo then (lo, k, n) else pick_hi
      | true, false => (lo, k, n)
      | false, true => pick_hi
      | false, false => shortest_digits fuel' m e a b n (k + 1)
      end
  end.

(** Number::toString for radix 10. *)
Definition positive_toString (m : positive) (e : Z) : jsstring :=
  let '(a, b) := scaled (Z.pos m) 1 (- e) in
  let n0 := magnitude 800 a b (-400) in
  let '(s, k, n) := shortest_digits 20 m e a b n0 1 in
  let ds := decimal_units s in
  if (k <=? n) && (n <=? 21) then
    ds ++ replicate (Z.to_nat (n - k)) Ch.zero
  else if (0 <? n) && (n <=? 21) then
    take (Z.to_nat n) ds ++ [Ch.dot] ++ drop (Z.to_nat n) ds
  else if (-6 <? n) && (n <=? 0) then
    [Ch.zero; Ch.dot] ++ replicate (Z.to_nat (- n)) Ch.zero ++ ds
  else
    let ex := [101%N] ++ [if 0 <? n - 1 then Ch.plus else Ch.minus]
              ++ decimal_units (Z.abs (n - 1)) in
    if k =? 1 then ds ++ ex
    else take 1 ds ++ [Ch.dot] ++ drop 1 ds ++ ex.

Definition Number_toString (x : number) : jsstring :=
  match x with
  | NaN => js "NaN"
  | Zero _ => js "0"
  | Infinity false => js "Infinity"
  | Infinity true => js "-Infinity"
  | Finite false m e => positive_toString m e
  | Finite true m e => Ch.minus :: positive_toString m e
  end.

Definition is_finite (x : number) : bool :=
  match x with
  | Zero _ | Finite _ _ _ => true
  | NaN | Infinity _ => false
  end.

(** An integer as a Number value. *)
Definition num (z : Z) : number := to_double (z <? 0) (Z.abs z) 1.

(** ** JavaScript values *)

(** The values the program handles: primitives, arrays, and ordinary objects
    as their own enumerable properties in property order. *)
Inductive jsvalue :=
| JUndefined
| JNull
| JBool (b : bool)
| JNumber (n : number)
| JString (s : jsstring)
| JArray (elems : list jsvalue)
| JObject (props : list (jsstring * jsvalue)).

Definition is_digit (c : N) : bool := ((Ch.zero <=? c) && (c <=? Ch.nine))%N.

(** An array index: the canonical decimal form of an integer below 2^32 - 1.
    Such keys come first, in ascending order, in the property order. *)
Definition array_index (k : jsstring) : option N :=
  match k with
  | [] => None
  | c :: r =>
      if forallb is_digit k && (bool_decide (r = []) || negb (c =? Ch.zero)%N) then
        let v := foldl (fun acc d => acc * 10 + (d - Ch.zero))%N 0%N k in
        if (v <? 4294967295)%N then Some v else None
      else None
  end.

(** Where a new property with array index [i] goes. *)
Fixpoint insert_index (i : N) (k : jsstring) (v : jsvalue)
    (props : list (jsstring * jsvalue)) : list (jsstring * jsvalue) :=
  match props with
  | [] => [(k, v)]
  | (k', v') :: rest =>
      match array_index k' with
      | Some j => if (j <? i)%N then (k', v') :: insert_index i k v rest
                  else (k, v) :: props
      | None => (k, v) :: props
      end
  end.

Fixpoint replace_property (k : jsstring) (v : jsvalue)
    (props : list (jsstring * jsvalue)) : list (jsstring * jsvalue) :=
  match props with
  | [] => []
  | (k', v') :: rest =>
      if bool_decide (k' = k) then (k', v) :: rest
      else (k', v') :: replace_property k v rest
  end.

(** CreateDataProperty on an ordinary object: an existing key keeps its
    place, a new array index is sorted in, any other new key goes last. *)
Definition set_property (props : list (jsstring * jsvalue))
    (kv : jsstring * jsvalue) : list (jsstring * jsvalue) :=
  let '(k, v) := kv in
  if bool_decide (k ∈ props.*1) then replace_property k v props
  else match array_index k with
       | Some i => insert_index i k v props
       | None => props ++ [(k, v)]
       end.

(** ** JSON.stringify *)

Definition hex_digit (n : N) : N := (if n <? 10 then 48 + n else 87 + n)%N.

(** UnicodeEscape: backslash, u, four lowercase hexadecimal digits. *)
Definition UnicodeEscape (c : N) : jsstring :=
  [Ch.backslash; 117%N;
   hex_digit (c / 4096 mod 16); hex_digit (c / 256 mod 16);
   hex_digit (c / 16 mod 16); hex_digit (c mod 16)].

Definition is_leading_surrogate (c : N) : bool := ((55296 <=? c) && (c <=? 56319))%N.
Definition is_trailing_surrogate (c : N) : bool := ((56320 <=? c) && (c <=? 57343))%N.

(** One code unit that is not part of a surrogate pair. *)
Definition quote_unit (c : N) : jsstring :=
  if (c =? 8)%N then [Ch.backslash; 98%N]
  else if (c =? 9)%N then [Ch.backslash; 116%N]
  else if (c =? 10)%N then [Ch.backslash; 110%N]
  else if (c =? 12)%N then [Ch.backslash; 102%N]
  else if (c =? 13)%N then [Ch.backslash; 114%N]
  else if (c =? Ch.quote)%N then [Ch.backslash; Ch.quote]
  else if (c =? Ch.backslash)%N then [Ch.backslash; Ch.backslash]
  else if (c <? 32)%N || is_leading_surrogate c || is_trailing_surrogate c
       then UnicodeEscape c
  else [c].

Fixpoint quote_units (s : jsstring) : jsstring :=
  match s with
  | [] => []
  | c :: r =>
      if is_leading_surrogate c then
        match r with
        | d :: r' =>
            if is_trailing_surrogate d then c :: d :: quote_units r'
            else UnicodeEscape c ++ quote_units r
        | [] => UnicodeEscape c
        end
      else quote_unit c ++ quote_units r
  end.

Definition QuoteJSONString (s : jsstring) : jsstring :=
  [Ch.quote] ++ quote_units s ++ [Ch.quote].

Fixpoint join (sep : jsstring) (parts : list jsstring) : jsstring :=
  match parts with
  | [] => []
  | [p] => p
  | p :: rest => p ++ sep ++ join sep rest
  end.

(** SerializeJSONProperty without replacer or indentation; [None] is the
    result [undefined]. *)
Fixpoint SerializeJSONProperty (v : jsvalue) : option jsstring :=
  match v with
  | JUndefined => None
  | JNull => Some (js "null")
  | JBool true => Some (js "true")
  | JBool false => Some (js "false")
  | JNumber n => Some (if is_finite n then Number_toString n else js "null")
  | JString s => Some (QuoteJSONString s)
  | JArray elems =>
      let parts :=
        (fix go (l : list jsvalue) : list jsstring :=
           match l with
           | [] => []
           | x :: l' => default (js "null") (SerializeJSONProperty x) :: go l'
           end) elems in
      Some ([Ch.lbracket] ++ join [Ch.comma] parts ++ [Ch.rbracket])
  | JObject props =>
      let parts :=
        (fix go (l : list (jsstring * jsvalue)) : list jsstring :=
           match l with
           | [] => []
           | (k, x) :: l' =>
               match SerializeJSONProperty x with
               | Some t => (QuoteJSONString k ++ [Ch.colon] ++ t) :: go l'
               | None => go l'
               end
           end) props in
      Some ([Ch.lbrace] ++ join [Ch.comma] parts ++ [Ch.rbrace])
  end.

Definition JSON_stringify (v : jsvalue) : option jsstring := SerializeJSONProperty v.

(** ** JSON.parse *)

Definition is_json_ws (c : N) : bool :=
  ((c =? 32) || (c =? 9) || (c =? 10) || (c =? 13))%N.

Fixpoint skip_ws (s : jsstring) : jsstring :=
  match s with
  | c :: r => if is_json_ws c then skip_ws r else s
  | [] => []
  end.

Definition hex_value (c : N) : option N :=
  if is_digit c then Some (c - 48)%N
  else if ((97 <=? c) && (c <=? 102))%N then Some (c - 87)%N
  else if ((65 <=? c) && (c <=? 70))%N then Some (c - 55)%N
  else None.

(** The characters of a string literal after its opening quote, and what
    follows the closing quote. *)
Fixpoint parse_string_body (s : jsstring) : option (jsstring * jsstring) :=
  match s with
  | [] => None
  | c :: r =>
      if (c =? Ch.quote)%N then Some ([], r)
      else if (c =? Ch.backslash)%N then
        match r with
        | [] => None
        | x :: r1 =>
            let simple (u : N) :=
              '(t, rest) ← parse_string_body r1; Some (u :: t, rest) in
            if (x =? Ch.quote)%N then simple Ch.quote
            else if (x =? Ch.backslash)%N then simple Ch.backslash
            else if (x =? Ch.slash)%N then simple Ch.slash
            else if (x =? 98)%N then simple 8%N
            else if (x =? 102)%N then simple 12%N
            else if (x =? 110)%N then simple 10%N
            else if (x =? 114)%N then simple 13%N
            else if (x =? 116)%N then simple 9%N
            else if (x =? 117)%N then
              match r1 with
              | h3 :: h2 :: h1 :: h0 :: r2 =>
                  a ← hex_value h3; b ← hex_value h2;
                  c' ← hex_value h1; d ← hex_value h0;
                  '(t, rest) ← parse_string_body r2;
                  Some ((a * 4096 + b * 256 + c' * 16 + d)%N :: t, rest)
              | _ => None
              end
            else None
        end
      else if (c <? 32)%N then None
      else '(t, rest) ← parse_string_body r; Some (c :: t, rest)
  end.

(** A run of decimal digits: their value, their number, the rest. *)
Fixpoint take_digits (acc : Z) (cnt : Z) (s : jsstring) : Z * Z * jsstring :=
  match s with
  | c :: r =>
      if is_digit c then take_digits (acc * 10 + Z.of_N (c - Ch.zero)) (cnt + 1) r
      else (acc, cnt, s)
  | [] => (acc, cnt, [])
  end.

(** A JSON number literal: -? int frac? exp?, rounded to binary64. *)
Definition parse_number (s : jsstring) : option (number * jsstring) :=
  let '(neg, s1) := match s with
                    | c :: r => if (c =? Ch.minus)%N then (true, r) else (false, s)
                    | [] => (false, s)
                    end in
  '(ival, s2) ← match s1 with
                 | c :: r =>
                     if (c =? Ch.zero)%N then Some (0, r)
                     else if is_digit c then
                       let '(v, _, rest) := take_digits 0 0 s1 in Some (v, rest)
                     else None
                 | [] => None
                 end;
  '(digits, scale, s3) ← match s2 with
                 | c :: r =>
                     if (c =? Ch.dot)%N then
                       let '(v, n, rest) := take_digits ival 0 r in
                       if n =? 0 then None else Some (v, n, rest)
                     else Some (ival, 0, s2)
                 | [] => Some (ival, 0, s2)
                 end;
  '(ex, s4) ← match s3 with
                 | c :: r =>
                     if ((c =? 101) || (c =? 69))%N then
                       let '(eneg, r1) :=
                         match r with
                         | g :: r' => if (g =? Ch.minus)%N then (true, r')
                                      else if (g =? Ch.plus)%N then (false, r')
                                      else (false, r)
                         | [] => (false, r)
                         end in
                       let '(v, n, rest) := take_digits 0 0 r1 in
                       if n =? 0 then None
                       else Some (if eneg then - v else v, rest)
                     else Some (0, s3)
                 | [] => Some (0, s3)
                 end;
  Some (decimal_to_double neg digits (ex - scale), s4).

(** [s] without the prefix [p], when it starts with it. *)
Fixpoint strip_prefix (p s : jsstring) : option jsstring :=
  match p, s with
  | [], _ => Some s
  | a :: p', b :: s' => if (a =? b)%N then strip_prefix p' s' else None
  | _ :: _, [] => None
  end.

Fixpoint parse_value (fuel : nat) (s : jsstring) : option (jsvalue * jsstring) :=
  match fuel with
  | O => None
  | S fuel' =>
      match skip_ws s with
      | [] => None
      | c :: r =>
          if (c =? Ch.quote)%N then
            '(str, rest) ← parse_string_body r; Some (JString str, rest)
          else if (c =? Ch.lbracket)%N then
            match skip_ws r with
            | c' :: r' =>
                if (c' =? Ch.rbracket)%N then Some (JArray [], r')
                else '(l, rest) ← parse_elements fuel' r; Some (JArray l, rest)
            | [] => None
            end
          else if (c =? Ch.lbrace)%N then
            match skip_ws r with
            | c' :: r' =>
                if (c' =? Ch.rbrace)%N then Some (JObject [], r')
                else '(l, rest) ← parse_members fuel' r;
                     Some (JObject (foldl set_property [] l), rest)
            | [] => None
            end
          else
            match strip_prefix (js "true") (c :: r),
                  strip_prefix (js "false") (c :: r),
                  strip_prefix (js "null") (c :: r) with
            | Some rest, _, _ => Some (JBool true, rest)
            | _, Some rest, _ => Some (JBool false, rest)
            | _, _, Some rest => Some (JNull, rest)
            | None, None, None =>
                '(n, rest) ← parse_number (c :: r); Some (JNumber n, rest)
            end
      end
  end
with parse_elements (fuel : nat) (s : jsstring) : option (list jsvalue * jsstring) :=
  match fuel with
  | O => None
  | S fuel' =>
      '(v, r) ← parse_value fuel' s;
      match skip_ws r with
      | c :: r' =>
          if (c =? Ch.comma)%N then
            '(l, rest) ← parse_elements fuel' r'; Some (v :: l, rest)
          else if (c =? Ch.rbracket)%N then Some ([v], r')
          else None
      | [] => None
      end
  end
with parse_members (fuel : nat) (s : jsstring)
  : option (list (jsstring * jsvalue) * jsstring) :=
  match fuel with
  | O => None
  | S fuel' =>
      match skip_ws s with
      | c :: r =>
          if (c =? Ch.quote)%N then
            '(k, r1) ← parse_string_body r;
            match skip_ws r1 with
            | c1 :: r2 =>
                if (c1 =? Ch.colon)%N then
                  '(v, r3) ← parse_value fuel' r2;
                  match skip_ws r3 with
                  | c3 :: r4 =>
                      if (c3 =? Ch.comma)%N then
                        '(l, rest) ← parse_members fuel' r4; Some ((k, v) :: l, rest)
                      else if (c3 =? Ch.rbrace)%N then Some ([(k, v)], r4)
                      else None
                  | [] => None
                  end
                else None
            | [] => None
            end
          else None
      | [] => None
      end
  end.

(** JSON.parse without reviver: one value, then only white space.
    [None] is a thrown SyntaxError. The fuel is enough for every text
    (lemma [JSON_parse_fuel]). *)
Definition JSON_parse (text : jsstring) : option jsvalue :=
  '(v, rest) ← parse_value (2 * length text + 2) text;
  match skip_ws rest with
  | [] => Some v
  | _ :: _ => None
  end.

(** ** ToString, String.prototype.split and String.prototype.trim *)

(** [String(v)]. An ordinary object converts through
    [Object.prototype.toString] unless an own property [toString] shadows
    it: no value here is callable, so the conversion then throws a
    TypeError ([None]). In [Array.prototype.join] the elements [undefined]
    and [null] are empty. *)
Fixpoint ToString (v : jsvalue) : option jsstring :=
  match v with
  | JUndefined => Some (js "undefined")
  | JNull => Some (js "null")
  | JBool true => Some (js "true")
  | JBool false => Some (js "false")
  | JNumber n => Some (Number_toString n)
  | JString s => Some s
  | JArray elems =>
      join [Ch.comma] <$>
        (fix go (l : list jsvalue) : option (list jsstring) :=
           match l with
           | [] => Some []
           | x :: l' =>
               t ← match x with
                   | JUndefined | JNull => Some []
                   | _ => ToString x
                   end;
               ts ← go l'; Some (t :: ts)
           end) elems
  | JObject props =>
      if bool_decide (js "toString" ∈ props.*1) then None
      else Some (js "[object Object]")
  end.

(** [s.split(",")]. *)
Fixpoint split_comma (s : jsstring) : list jsstring :=
  match s with
  | [] => [[]]
  | c :: r =>
      if (c =? Ch.comma)%N then [] :: split_comma r
      else match split_comma r with
           | h :: t => (c :: h) :: t
           | [] => [[c]]
           end
  end.

(** WhiteSpace and LineTerminator code points, all in the basic plane. *)
Definition is_js_space (c : N) : bool :=
  ((9 <=? c) && (c <=? 13) || (c =? 32) || (c =? 160) || (c =? 5760)
   || (8192 <=? c) && (c <=? 8202) || (c =? 8232) || (c =? 8233)
   || (c =? 8239) || (c =? 8287) || (c =? 12288) || (c =? 65279))%N.

Fixpoint trim_start (s : jsstring) : jsstring :=
  match s with
  | c :: r => if is_js_space c then trim_start r else s
  | [] => []
  end.

Definition trim_end (s : jsstring) : jsstring := reverse (trim_start (reverse s)).

(** [s.trim()]. *)
Definition trim (s : jsstring) : jsstring := trim_end (trim_start s).

(** Truthiness of a value of type [string | undefined]. *)
Definition truthy (v : option jsstring) : bool :=
  match v with
  | Some (_ :: _) => true
  | Some [] | None => false
  end.

(** ** A result type for code that can throw *)

Inductive result (E A : Type) :=
| Ok (a : A)
| Throw (e : E).
Arguments Ok {E A} a.
Arguments Throw {E A} e.

Definition result_bind {E A B} (r : result E A) (k : A → result E B) : result E B :=
  match r with
  | Ok a => k a
  | Throw e => Throw e
  end.

Notation "'try!' x := r ; k" := (result_bind r (fun x => k))
  (at level 10, x name, r at level 100, k at level 200).

(** ** sst.config.ts *)

Module SstConfig.

(** The [ResourcePolicy] interface. The identifiers are declared [string[]];
    at run time the field holds whatever [allowedAccounts] holds. *)
Record Condition := {
  ForAnyValue_StringEquals__aws_PrincipalOrgID : list jsvalue
}.

Record Statement := {
  Sid : jsstring;
  Effect : jsstring;
  Principal : jsstring;
  Action : jsstring;
  Resource : jsstring;
  Condition_ : Condition
}.

Record ResourcePolicy := {
  Version : jsstring;
  Statement_ : list Statement
}.

(** The object behind a [ResourcePolicy], properties in the order of the
    source. *)
Definition Statement_value (s : Statement) : jsvalue :=
  JObject [
    (js "Sid", JString (Sid s));
    (js "Effect", JString (Effect s));
    (js "Principal", JString (Principal s));
    (js "Action", JString (Action s));
    (js "Resource", JString (Resource s));
    (js "Condition", JObject [
      (js "ForAnyValue:StringEquals", JObject [
        (js "aws:PrincipalOrgID",
         JArray (ForAnyValue_StringEquals__aws_PrincipalOrgID (Condition_ s)))])])].

Definition ResourcePolicy_value (p : ResourcePolicy) : jsvalue :=
  JObject [
    (js "Version", JString (Version p));
    (js "Statement", JArray (Statement_value <$> Statement_ p))].

(** What the provisioning run depends on: the environment variables, the
    readable files (path to UTF-8 decoded content), and the arguments and
    the name the platform hands to [transform.api]. *)
Record platform := {
  env : gmap string jsstring;
  files : gmap jsstring jsstring;
  api_args : gmap string jsvalue;
  api_name : jsstring
}.

(** What the [try] block of lines 50-55 can throw. *)
Inductive config_error :=
| ReadFailed                       (* fs.readFileSync threw *)
| SyntaxError                      (* JSON.parse threw *)
| NotAnArray (message : jsstring). (* the Error of line 54 *)

Inductive console_entry :=
| console_error_reading (e : config_error)
| console_log (text : jsstring).

(** [fs.readFileSync(path, "utf-8")]. *)
Definition readFileSync (w : platform) (path : jsstring) : result config_error jsstring :=
  match files w !! path with
  | Some data => Ok data
  | None => Throw ReadFailed
  end.

Definition parse (data : jsstring) : result config_error jsvalue :=
  match JSON_parse data with
  | Some v => Ok v
  | None => Throw SyntaxError
  end.

(** Lines 51-55, the body of the [try]. *)
Definition read_accounts_file (w : platform) (path : jsstring)
  : result config_error (list jsvalue) :=
  try! data := readFileSync w path;
  try! parsed := parse data;
  match parsed with
  | JArray elems => Ok elems
  | _ => Throw (NotAnArray
           (js "The ALLOWED_ACCOUNTS_FILE must contain a JSON array of account IDs."))
  end.

(** Lines 48-62: [allowedAccounts]; a [Throw] is the [catch] branch, which
    logs and calls [process.exit(1)]. *)
Definition allowedAccounts (w : platform) : result config_error (list jsvalue) :=
  if truthy (env w !! "ALLOWED_ACCOUNTS_FILE"%string) then
    read_accounts_file w (default [] (env w !! "ALLOWED_ACCOUNTS_FILE"%string))
  else if truthy (env w !! "ALLOWED_ACCOUNTS"%string) then
    Ok (JString ∘ trim <$>
          split_comma (default [] (env w !! "ALLOWED_ACCOUNTS"%string)))
  else Ok [].

(** Lines 65-84: [policy]. *)
Definition policy (allowedAccounts : list jsvalue) : option ResourcePolicy :=
  if (0 <? length allowedAccounts)%nat then
    Some {|
      Version := js "2012-10-17";
      Statement_ := [ {|
        Sid := js "AllowAccessForAllowedAccounts";
        Effect := js "Allow";
        Principal := js "*";
        Action := js "execute-api:Invoke";
        Resource := js "*";
        Condition_ := {|
          ForAnyValue_StringEquals__aws_PrincipalOrgID := allowedAccounts |}
      |} ]
    |}
  else None.

(** Lines 89-100: the [transform.api] callback. It mutates [args]; the result
    is the arguments after the call, the returned value and the console
    output. *)
Definition transform_api (policy : option ResourcePolicy)
    (args : gmap string jsvalue) (name : jsstring)
  : gmap string jsvalue * jsvalue * list console_entry :=
  match policy with
  | Some p =>
      let text := JSON_stringify (ResourcePolicy_value p) in
      let args' := <["policy"%string := from_option JString JUndefined text]> args in
      (args', JUndefined,
       [console_log (js "Resource policy " ++ [Ch.quote]
                     ++ default (js "undefined") text ++ [Ch.quote]
                     ++ js " added to API " ++ [Ch.quote] ++ name
                     ++ [Ch.quote] ++ js ".")])
  | None => (args, JUndefined, [])
  end.

Inductive resource :=
| Function (name : jsstring) (url : bool) (handler : jsstring)
| ApiGatewayV1 (name : jsstring) (args : gmap string jsvalue)
| Route (route handler : jsstring)
| Deployment.

Inductive outcome :=
| Exited (code : Z) (declared : list resource) (console : list console_entry)
| Completed (declared : list resource) (console : list console_entry).

(** Lines 35-107: [run]. *)
Definition run (w : platform) : outcome :=
  let functions :=
    [ Function (js "HonoVanillaLambda") true (js "src/index.handler");
      Function (js "HonoDebugLambda") false (js "src/debug.handler") ] in
  match allowedAccounts w with
  | Throw e => Exited 1 functions [console_error_reading e]
  | Ok accounts =>
      let '(args, _, console) :=
        transform_api (policy accounts) (api_args w) (api_name w) in
      Completed
        (functions ++
         [ ApiGatewayV1 (js "MyApi") args;
           Route (js "GET /") (js "src/index.handler");
           Route (js "GET /debug") (js "src/debug.handler");
           Deployment ])
        console
  end.

End SstConfig.

(** ** The /debug handlers *)

Module Debug.

(** What a handler reads of the Hono context: [c.req.header()], [c.req.url],
    [c.req.method] and, for the handler typed with [Bindings],
    [c.env.event.requestContext]. *)
Record context := {
  header : jsvalue;
  url : jsstring;
  method : jsstring;
  requestContext : jsvalue
}.

(** A thrown value: an instance of [Error] or anything else. *)
Inductive exception :=
| Error (message : jsstring) (stack : jsstring)
| Thrown (v : jsvalue).

Inductive console_entry :=
| console_log (args : list jsvalue)
| console_error (args : list jsvalue).

(** The response of [c.json(object, status)]; the object is the payload that
    Hono serialises. *)
Record response := {
  status : Z;
  json : jsvalue
}.

Definition c_json (object : jsvalue) (status : Z) : response :=
  {| status := status; json := object |}.

(** A handler returns a response or lets a TypeError escape (the only throw
    its [catch] block can make: [String(error)] on a value that has no
    string conversion). *)
Inductive completion :=
| Returned (r : response)
| Escaped_TypeError.

Definition success_message : jsstring :=
  js "Lambda executed successfully. Check CloudWatch logs for caller identity details.".

Definition failure_message : jsstring := js "Error retrieving caller identity".

(** [error instanceof Error ? error.message : String(error)]. *)
Definition errorMsg (error : exception) : option jsstring :=
  match error with
  | Error message _ => Some message
  | Thrown v => ToString v
  end.

(** [error instanceof Error ? error.stack : '']. *)
Definition stack_or_empty (error : exception) : jsstring :=
  match error with
  | Error _ stack => stack
  | Thrown _ => []
  end.

(** The [try]/[catch] both handlers share (lines 28-40 and 64-76);
    [sent] is the settled [stsClient.send(command)]. *)
Definition identity_response (sent : result exception jsvalue)
  : list console_entry * completion :=
  match sent with
  | Ok callerIdentity =>
      ([console_log [JString (js "Caller Identity:"); callerIdentity]],
       Returned (c_json (JObject [ (js "message", JString success_message);
                                   (js "callerIdentity", callerIdentity) ]) 200))
  | Throw error =>
      match errorMsg error with
      | Some msg =>
          ([console_error [JString (js "Error retrieving caller identity:");
                           JString msg; JString (stack_or_empty error)]],
           Returned (c_json (JObject [ (js "message", JString failure_message);
                                       (js "error", JString msg) ]) 500))
      | None => ([], Escaped_TypeError)
      end
  end.

(** The first handler (lines 20-41), which also logs the Lambda request
    context. *)
Definition debug_with_requestContext (c : context)
    (sent : result exception jsvalue) : list console_entry * completion :=
  let trace :=
    console_log [ JString (js "Received request:");
                  JObject [ (js "headers", header c);
                            (js "url", JString (url c));
                            (js "method", JString (method c));
                            (js "requestContext", requestContext c) ] ] in
  let '(console, result) := identity_response sent in
  (trace :: console, result).

(** The second handler (lines 57-77), without the request context. *)
Definition debug (c : context)
    (sent : result exception jsvalue) : list console_entry * completion :=
  let trace :=
    console_log [ JString (js "Received request:");
                  JObject [ (js "headers", header c);
                            (js "url", JString (url c));
                            (js "method", JString (method c)) ] ] in
  let '(console, result) := identity_response sent in
  (trace :: console, result).

End Debug.

(** ** Inputs and projections used in the statements *)

(** A request, for the examples. *)
Definition get_debug : Debug.context :=
  {| Debug.header := JObject [(js "host", JString (js "api.example"))];
     Debug.url := js "https://api.example/debug";
     Debug.method := js "GET";
     Debug.requestContext := JObject [(js "stage", JString (js "dev"))] |}.

(** The two environment variables of the allow-list. *)
Definition FILE : string := "ALLOWED_ACCOUNTS_FILE".
Definition INLINE : string := "ALLOWED_ACCOUNTS".

(** The platform with other environment variables, or other files. *)
Definition with_env (w : SstConfig.platform) (e : gmap string jsstring)
  : SstConfig.platform :=
  {| SstConfig.env := e; SstConfig.files := SstConfig.files w;
     SstConfig.api_args := SstConfig.api_args w;
     SstConfig.api_name := SstConfig.api_name w |}.

Definition with_files (w : SstConfig.platform) (fs : gmap jsstring jsstring)
  : SstConfig.platform :=
  {| SstConfig.env := SstConfig.env w; SstConfig.files := fs;
     SstConfig.api_args := SstConfig.api_args w;
     SstConfig.api_name := SstConfig.api_name w |}.

(** The policy a run builds, if it builds one. *)
Definition run_policy (w : SstConfig.platform) : option SstConfig.ResourcePolicy :=
  match SstConfig.allowedAccounts w with
  | Ok accounts => SstConfig.policy accounts
  | Throw _ => None
  end.

(** The organization identifiers of a policy: those of all its statements. *)
Definition identifiers (p : SstConfig.ResourcePolicy) : list jsvalue :=
  s ← SstConfig.Statement_ p;
  SstConfig.ForAnyValue_StringEquals__aws_PrincipalOrgID (SstConfig.Condition_ s).

(** The resources a run declares before it ends. *)
Definition declared (o : SstConfig.outcome) : list SstConfig.resource :=
  match o with
  | SstConfig.Exited _ d _ | SstConfig.Completed d _ => d
  end.

(** The [policy] argument of the gateway a run declares, if it declares one. *)
Definition gateway_policy (o : SstConfig.outcome) : option jsvalue :=
  args ← head (omap (λ r, match r with
                          | SstConfig.ApiGatewayV1 _ args => Some args
                          | _ => None
                          end) (declared o));
  args !! "policy"%string.

Definition is_array (v : jsvalue) : bool :=
  match v with
  | JArray _ => true
  | _ => false
  end.

(** A platform from the two variables and one file. *)
Definition provision (file inline : option jsstring)
    (fs : gmap jsstring jsstring) : SstConfig.platform :=
  {| SstConfig.env :=
       partial_alter (λ _, file) FILE (partial_alter (λ _, inline) INLINE ∅);
     SstConfig.files := fs;
     SstConfig.api_args := {[ "name"%string := JString (js "MyApiApi") ]};
     SstConfig.api_name := js "MyApiApi" |}.

(** An ASCII literal in which the apostrophe stands for the double quote. *)
Definition json_text (s : string) : jsstring :=
  (λ c, if (c =? 39)%N then Ch.quote else c) <$> js s.

Definition accounts_json : jsstring := js "accounts.json".

(** Neither variable is set. *)
Definition no_allow_list : SstConfig.platform := provision None None ∅.

(** The file holds an object, not an array. *)
Definition object_file : SstConfig.platform :=
  provision (Some accounts_json) None
    {[ accounts_json := json_text "{'accounts': ['o-aaa111']}" ]}.

(** The file holds an array of a number and null. *)
Definition numbers_file : SstConfig.platform :=
  provision (Some accounts_json) None
    {[ accounts_json := json_text "[111111111111, null]" ]}.

(** Both variables are set. *)
Definition both_sources : SstConfig.platform :=
  provision (Some accounts_json) (Some (js "o-inline1, o-inline2"))
    {[ accounts_json := json_text "['o-file1']" ]}.

(** The inline list has an empty element. *)
Definition inline_with_gap : SstConfig.platform :=
  provision None (Some (js "o-aaa111,,o-bbb222")) ∅.

(** The file holds a number literal beyond the binary64 range. *)
Definition overflow_file : SstConfig.platform :=
  provision (Some accounts_json) None
    {[ accounts_json := json_text "[1e999]" ]}.

(** The text of an array element and of an object member in
    [SerializeJSONProperty]. *)
Definition element_text (x : jsvalue) : jsstring :=
  default (js "null") (SerializeJSONProperty x).

Definition member_text (kx : jsstring * jsvalue) : option jsstring :=
  (λ t, QuoteJSONString kx.1 ++ [Ch.colon] ++ t) <$> SerializeJSONProperty kx.2.

(** The text of a member whose value is not [undefined]. *)
Definition member_string (kx : jsstring * jsvalue) : jsstring :=
  QuoteJSONString kx.1 ++ [Ch.colon] ++ element_text kx.2.

(** Values without numbers and without [undefined], whose objects have
    distinct keys none of which is an array index: what [JSON.parse] builds
    from their text has the same properties in the same order. *)
Fixpoint plain (v : jsvalue) : bool :=
  match v with
  | JNull | JBool _ | JString _ => true
  | JUndefined | JNumber _ => false
  | JArray elems =>
      (fix go (l : list jsvalue) : bool :=
         match l with
         | [] => true
         | x :: l' => plain x && go l'
         end) elems
  | JObject props =>
      bool_decide (NoDup props.*1)
      && forallb (λ k, bool_decide (array_index k = None)) props.*1
      && (fix go (l : list (jsstring * jsvalue)) : bool :=
            match l with
            | [] => true
            | (_, x) :: l' => plain x && go l'
            end) props
  end.

(** The text of [v], followed by anything, parses back to [v] with fuel
    for the text. *)
Definition parses_back (v : jsvalue) : Prop :=
  ∀ text, SerializeJSONProperty v = Some text →
  ∀ fuel rest, (length text ≤ fuel)%nat →
  parse_value fuel (text ++ rest) = Some (v, rest).

(** ** sst.config.ts: [app] *)

Module SstApp.

(** What [app] reads of its input. *)
Record input := {
  stage : jsstring
}.

Record providers := {
  aws_profile : jsstring
}.

Record config := {
  name : jsstring;
  removal : jsstring;
  protect : bool;
  home : jsstring;
  providers_ : providers
}.

(** Lines 24-34: [app]; [===] on strings compares the code units. *)
Definition app (i : input) : config :=
  {| name := js "sst-hono-apigw-resourcepolicy";
     removal := if bool_decide (stage i = js "production")
                then js "retain" else js "remove";
     protect := bool_decide (stage i = js "production");
     home := js "aws";
     providers_ := {| aws_profile := js "dev-sandbox" |} |}.

End SstApp.

(** ** Further projections and predicates used in the statements *)

(** The console output of a run. *)
Definition console_of (o : SstConfig.outcome) : list SstConfig.console_entry :=
  match o with
  | SstConfig.Exited _ _ c | SstConfig.Completed _ c => c
  end.

(** The line the transform logs for a policy text and an API name. *)
Definition policy_added_line (text name : jsstring) : SstConfig.console_entry :=
  SstConfig.console_log
    (js "Resource policy " ++ [Ch.quote] ++ text ++ [Ch.quote]
     ++ js " added to API " ++ [Ch.quote] ++ name ++ [Ch.quote] ++ js ".").

(** The number of commas of a string. *)
Definition commas (s : jsstring) : nat :=
  length (filter (λ c, c = Ch.comma) s).

(** A code unit [JSON.stringify] writes as it is: not a control character,
    not the quote, not the backslash, not a surrogate. *)
Definition written_verbatim (c : N) : bool :=
  negb (c <? 32)%N && negb (c =? Ch.quote)%N && negb (c =? Ch.backslash)%N
  && negb (is_leading_surrogate c) && negb (is_trailing_surrogate c).

(** The primitive values: everything but arrays and objects. *)
Definition is_primitive (v : jsvalue) : bool :=
  match v with
  | JArray _ | JObject _ => false
  | _ => true
  end.

(** The fixed text around the identifiers in the JSON of a policy. *)
Definition policy_text_before : jsstring :=
  json_text "{'Version':'2012-10-17','Statement':[{'Sid':'AllowAccessForAllowedAccounts','Effect':'Allow','Principal':'*','Action':'execute-api:Invoke','Resource':'*','Condition':{'ForAnyValue:StringEquals':{'aws:PrincipalOrgID':".

Definition policy_text_after : jsstring := json_text "}}}]}".

(** The same allow-list, once as the inline string and once as a file. *)
Definition inline_platform (s : jsstring) (args : gmap string jsvalue)
    (name : jsstring) : SstConfig.platform :=
  {| SstConfig.env := {[ INLINE := s ]}; SstConfig.files := ∅;
     SstConfig.api_args := args; SstConfig.api_name := name |}.

Definition file_platform (path text : jsstring) (args : gmap string jsvalue)
    (name : jsstring) : SstConfig.platform :=
  {| SstConfig.env := {[ FILE := path ]}; SstConfig.files := {[ path := text ]};
     SstConfig.api_args := args; SstConfig.api_name := name |}.

(** * Properties *)

(** ** The /debug handlers *)

Section DebugHandlers.
Import Debug.
Variable c : context.

Lemma identity_response_resolved (callerIdentity : jsvalue) :
  (identity_response (Ok callerIdentity)).2 =
  Returned {| status := 200;
              json := JObject [ (js "message", JString success_message);
                                (js "callerIdentity", callerIdentity) ] |}.
Proof. reflexivity. Qed.

Lemma identity_response_failed (error : exception) (msg : jsstring) :
  errorMsg error = Some msg →
  (identity_response (Throw error)).2 =
  Returned {| status := 500;
              json := JObject [ (js "message", JString failure_message);
                                (js "error", JString msg) ] |}.
Proof. intros H. unfold identity_response. rewrite H. reflexivity. Qed.

Lemma handlers_share_result (sent : result exception jsvalue) :
  (debug_with_requestContext c sent).2 = (identity_response sent).2
  ∧ (debug c sent).2 = (identity_response sent).2.
Proof.
  unfold debug_with_requestContext, debug.
  destruct (identity_response sent) as [console r]. split; reflexivity.
Qed.
End DebugHandlers.

(** C6: for every resolved identity, both handlers return status 200 with
    the fixed success message and [callerIdentity] the resolved value as it
    is. *)
Theorem debug_success_passthrough (c : Debug.context) (callerIdentity : jsvalue) :
  let ok := Debug.Returned
    {| Debug.status := 200;
       Debug.json := JObject
         [ (js "message", JString (js
             "Lambda executed successfully. Check CloudWatch logs for caller identity details."));
           (js "callerIdentity", callerIdentity) ] |} in
  (Debug.debug_with_requestContext c (Ok callerIdentity)).2 = ok
  ∧ (Debug.debug c (Ok callerIdentity)).2 = ok.
Proof.
  intros ok. destruct (handlers_share_result c (Ok callerIdentity)) as [-> ->].
  split; apply identity_response_resolved.
Qed.

(** The identity of the spec's example comes back unchanged. *)
Example debug_success_example :
  let identity := JObject [ (js "accountId", JString (js "111111111111"));
                            (js "arn", JString (js "arn:test:role/x"));
                            (js "userId", JString (js "AID123")) ] in
  ∃ console message,
    Debug.debug get_debug (Ok identity) =
    (console, Debug.Returned {| Debug.status := 200;
        Debug.json := JObject [ (js "message", message);
                                (js "callerIdentity", identity) ] |}).
Proof. intros identity. eexists _, _. reflexivity. Qed.

(** C5, as amended: a failure that is an instance of [Error] is answered
    with status 500, the fixed failure message and [error] its [message];
    any other thrown value [v] whose conversion [String(v)] succeeds is
    answered with status 500 and [error] that conversion, whether or not
    [v] has a [message] property; in both cases the handler returns. *)
Theorem debug_failure_response (c : Debug.context) (error : Debug.exception)
    (msg : jsstring) :
  Debug.errorMsg error = Some msg →
  let failed := Debug.Returned
    {| Debug.status := 500;
       Debug.json := JObject
         [ (js "message", JString (js "Error retrieving caller identity"));
           (js "error", JString msg) ] |} in
  (Debug.debug_with_requestContext c (Throw error)).2 = failed
  ∧ (Debug.debug c (Throw error)).2 = failed
  ∧ match error with
    | Debug.Error message _ => msg = message
    | Debug.Thrown v => ToString v = Some msg
    end.
Proof.
  intros H failed. destruct (handlers_share_result c (Throw error)) as [-> ->].
  rewrite (identity_response_failed error msg H).
  repeat split. destruct error; simpl in H; congruence.
Qed.

(** A rejected call with the plain string "boom" is answered 500 with
    [error: "boom"]. *)
Lemma debug_failure_response_witness :
  Debug.errorMsg (Debug.Thrown (JString (js "boom"))) = Some (js "boom")
  ∧ (Debug.debug get_debug (Throw (Debug.Thrown (JString (js "boom"))))).2 =
    Debug.Returned
      {| Debug.status := 500;
         Debug.json := JObject
           [ (js "message", JString (js "Error retrieving caller identity"));
             (js "error", JString (js "boom")) ] |}.
Proof.
  split; [reflexivity |].
  apply (debug_failure_response get_debug (Debug.Thrown (JString (js "boom")))
           (js "boom")).
  reflexivity.
Defined.

(** An [Error] that fails with message "timeout" is answered 500 with
    [error: "timeout"]. *)
Example debug_timeout_example :
  (Debug.debug get_debug (Throw (Debug.Error (js "timeout") (js "at send")))).2 =
  Debug.Returned
    {| Debug.status := 500;
       Debug.json := JObject
         [ (js "message", JString (js "Error retrieving caller identity"));
           (js "error", JString (js "timeout")) ] |}.
Proof. reflexivity. Qed.

(** C5, as stated, fails: a thrown object that is not an [Error] but has a
    [message] is reported by its conversion "[object Object]", not by its
    message; and a thrown object whose own [toString] is not callable makes
    [String(error)] throw inside the [catch] block, so the handler does not
    return. *)
Lemma debug_failure_counterexample :
  let carries_message := Debug.Thrown (JObject [(js "message", JString (js "boom"))]) in
  let no_conversion := Debug.Thrown (JObject [(js "toString", JNull)]) in
  (Debug.debug get_debug (Throw carries_message)).2 =
    Debug.Returned
      {| Debug.status := 500;
         Debug.json := JObject
           [ (js "message", JString (js "Error retrieving caller identity"));
             (js "error", JString (js "[object Object]")) ] |}
  ∧ js "[object Object]" ≠ js "boom"
  ∧ (Debug.debug get_debug (Throw no_conversion)).2 = Debug.Escaped_TypeError
  ∧ (Debug.debug_with_requestContext get_debug (Throw no_conversion)).2
    = Debug.Escaped_TypeError.
Proof. repeat split. discriminate. Qed.

(** ** sst.config.ts: reading the allow-list *)

Section AllowList.
Import SstConfig.
Implicit Types (w : platform) (path data inline : jsstring).

Lemma truthy_Some (o : option jsstring) :
  truthy o = true ↔ ∃ s, o = Some s ∧ s ≠ [].
Proof.
  destruct o as [[|c s]|]; simpl; split; try done.
  - intros (s & [= <-] & H). done.
  - intros _. by exists (c :: s).
  - intros (s & [=] & _).
Qed.

Lemma allowedAccounts_file w path :
  env w !! FILE = Some path → path ≠ [] →
  allowedAccounts w = read_accounts_file w path.
Proof.
  intros H Hne. unfold allowedAccounts. fold FILE. rewrite H.
  destruct path; [done | reflexivity].
Qed.

Lemma allowedAccounts_no_file w :
  truthy (env w !! FILE) = false →
  allowedAccounts w =
    if truthy (env w !! INLINE)
    then Ok (JString ∘ trim <$> split_comma (default [] (env w !! INLINE)))
    else Ok [].
Proof. intros H. unfold allowedAccounts. fold FILE INLINE. by rewrite H. Qed.

Lemma read_accounts_file_array w path data elems :
  files w !! path = Some data → JSON_parse data = Some (JArray elems) →
  read_accounts_file w path = Ok elems.
Proof.
  intros Hf Hp. unfold read_accounts_file, readFileSync, parse.
  rewrite Hf. simpl. rewrite Hp. reflexivity.
Qed.

Lemma read_accounts_file_throws w path :
  (∃ e, read_accounts_file w path = Throw e) ↔
  files w !! path = None
  ∨ ∃ data, files w !! path = Some data
      ∧ (JSON_parse data = None
         ∨ ∃ v, JSON_parse data = Some v ∧ is_array v = false).
Proof.
  unfold read_accounts_file, readFileSync, parse.
  destruct (files w !! path) as [data|]; simpl;
    [| split; [by left | intros _; by eexists]].
  destruct (JSON_parse data) as [v|] eqn:Hp; simpl.
  - destruct (is_array v) eqn:Ha.
    + destruct v; try discriminate. split.
      * intros [e [=]].
      * intros [[=] | (d & [= <-] & [Hn | (v & Hv & Hf)])]; [congruence|].
        rewrite Hp in Hv. by injection Hv as <-.
    + split.
      * intros _. right. exists data. split; [done|]. right. by exists v.
      * intros _. destruct v; try discriminate; by eexists.
  - split; [| intros _; by eexists].
    intros _. right. exists data. split; [done | by left].
Qed.

Lemma run_exited w :
  (∃ code d c, run w = Exited code d c) ↔ ∃ e, allowedAccounts w = Throw e.
Proof.
  unfold run. destruct (allowedAccounts w) as [accounts|e].
  - destruct (transform_api _ _ _) as [[args r] console].
    split; [intros (? & ? & ? & [=]) | intros [? [=]]].
  - split; [intros _; by exists e | intros _; by eexists _, _, _].
Qed.

Lemma run_depends_on_accounts w w' :
  allowedAccounts w = allowedAccounts w' →
  api_args w = api_args w' → api_name w = api_name w' →
  run w = run w'.
Proof. intros H1 H2 H3. unfold run. by rewrite H1, H2, H3. Qed.

Lemma policy_Some (accounts : list jsvalue) (p : ResourcePolicy) :
  policy accounts = Some p → identifiers p = accounts ∧ accounts ≠ [].
Proof.
  unfold policy. destruct accounts as [|a l]; simpl; [done|].
  intros [= <-]. split; [| done]. unfold identifiers. simpl.
  by rewrite app_nil_r.
Qed.
End AllowList.

(** ** sst.config.ts: the allow-list, the policy and the transform *)

(** C1: for every non-empty allow-list, [policy] is a document with exactly
    one statement, whose condition holds the allow-list itself (so the same
    identifiers, in any order), with Effect "Allow", Principal "*", Action
    "execute-api:Invoke" and Resource "*". *)
Theorem policy_of_nonempty_allow_list (allowList : list jsvalue) :
  allowList ≠ [] →
  ∃ statement,
    SstConfig.policy allowList =
      Some {| SstConfig.Version := js "2012-10-17";
              SstConfig.Statement_ := [statement] |}
    ∧ SstConfig.ForAnyValue_StringEquals__aws_PrincipalOrgID
        (SstConfig.Condition_ statement) = allowList
    ∧ (∀ id, id ∈ SstConfig.ForAnyValue_StringEquals__aws_PrincipalOrgID
                    (SstConfig.Condition_ statement) ↔ id ∈ allowList)
    ∧ SstConfig.Effect statement = js "Allow"
    ∧ SstConfig.Principal statement = js "*"
    ∧ SstConfig.Action statement = js "execute-api:Invoke"
    ∧ SstConfig.Resource statement = js "*".
Proof.
  intros Hne. destruct allowList as [|a l]; [done|].
  eexists. split; [reflexivity|]. simpl. repeat split; done.
Qed.

Lemma policy_of_nonempty_allow_list_witness :
  [JString (js "o-aaa111"); JString (js "o-bbb222")] ≠ []
  ∧ ∃ statement,
      SstConfig.policy [JString (js "o-aaa111"); JString (js "o-bbb222")] =
        Some {| SstConfig.Version := js "2012-10-17";
                SstConfig.Statement_ := [statement] |}
      ∧ SstConfig.ForAnyValue_StringEquals__aws_PrincipalOrgID
          (SstConfig.Condition_ statement)
        = [JString (js "o-aaa111"); JString (js "o-bbb222")]
      ∧ (∀ id, id ∈ SstConfig.ForAnyValue_StringEquals__aws_PrincipalOrgID
                      (SstConfig.Condition_ statement)
               ↔ id ∈ [JString (js "o-aaa111"); JString (js "o-bbb222")])
      ∧ SstConfig.Effect statement = js "Allow"
      ∧ SstConfig.Principal statement = js "*"
      ∧ SstConfig.Action statement = js "execute-api:Invoke"
      ∧ SstConfig.Resource statement = js "*".
Proof.
  split; [discriminate |].
  apply (policy_of_nonempty_allow_list
           [JString (js "o-aaa111"); JString (js "o-bbb222")]).
  discriminate.
Defined.

(** C2: when the allow-list is empty, [policy] is [undefined], the transform
    leaves the arguments of the gateway as they were, so its [policy] field
    stays as the platform had it (unset), and nothing is logged. *)
Theorem empty_allow_list_attaches_nothing (w : SstConfig.platform) :
  SstConfig.allowedAccounts w = Ok [] →
  SstConfig.policy [] = None
  ∧ run_policy w = None
  ∧ SstConfig.transform_api (SstConfig.policy []) (SstConfig.api_args w)
      (SstConfig.api_name w) = (SstConfig.api_args w, JUndefined, [])
  ∧ gateway_policy (SstConfig.run w) = SstConfig.api_args w !! "policy"%string
  ∧ ∃ before after,
      SstConfig.run w =
      SstConfig.Completed
        (before ++ SstConfig.ApiGatewayV1 (js "MyApi") (SstConfig.api_args w) :: after)
        [].
Proof.
  intros H. unfold run_policy, SstConfig.run, gateway_policy.
  rewrite H. simpl. repeat split. eexists [_; _], _. reflexivity.
Qed.

Lemma empty_allow_list_attaches_nothing_witness :
  SstConfig.allowedAccounts no_allow_list = Ok []
  ∧ gateway_policy (SstConfig.run no_allow_list) = None.
Proof.
  split; [reflexivity |].
  destruct (empty_allow_list_attaches_nothing no_allow_list eq_refl)
    as (_ & _ & _ & -> & _).
  reflexivity.
Defined.

(** C10: the transform returns [undefined] and changes no field of the
    arguments other than [policy]; without a policy (the allow-list was
    empty) it changes nothing at all; with one, [policy] becomes its JSON
    text. *)
Theorem transform_api_frame (p : option SstConfig.ResourcePolicy)
    (args : gmap string jsvalue) (name : jsstring) (field : string) :
  field ≠ "policy"%string →
  (SstConfig.transform_api p args name).1.1 !! field = args !! field
  ∧ (SstConfig.transform_api p args name).1.2 = JUndefined
  ∧ SstConfig.transform_api None args name = (args, JUndefined, [])
  ∧ SstConfig.transform_api (SstConfig.policy []) args name = (args, JUndefined, [])
  ∧ match p with
    | Some q =>
        (SstConfig.transform_api p args name).1.1 !! "policy"%string =
        Some (from_option JString JUndefined
                (JSON_stringify (SstConfig.ResourcePolicy_value q)))
    | None => (SstConfig.transform_api p args name).1.1 = args
    end.
Proof.
  intros Hne. destruct p as [q|]; simpl; repeat split.
  - by rewrite lookup_insert_ne.
  - by rewrite lookup_insert_eq.
Qed.

Lemma transform_api_frame_witness :
  "name"%string ≠ "policy"%string
  ∧ (SstConfig.transform_api (SstConfig.policy [JString (js "o-aaa111")])
       {[ "name"%string := JString (js "MyApiApi") ]} (js "MyApiApi")).1.1
      !! "name"%string
    = ({[ "name"%string := JString (js "MyApiApi") ]} : gmap string jsvalue)
      !! "name"%string.
Proof.
  split; [discriminate |].
  apply (transform_api_frame (SstConfig.policy [JString (js "o-aaa111")])
           {[ "name"%string := JString (js "MyApiApi") ]} (js "MyApiApi")
           "name"%string).
  discriminate.
Defined.

(** C3: when the file variable is set and the file is read, but its content
    is not JSON or is JSON other than an array, the run logs the error and
    exits with code 1: only the two functions were declared, no gateway, no
    policy. *)
Theorem unparsable_file_aborts (w : SstConfig.platform) (path data : jsstring) :
  SstConfig.env w !! FILE = Some path → path ≠ [] →
  SstConfig.files w !! path = Some data →
  JSON_parse data = None ∨ (∃ v, JSON_parse data = Some v ∧ is_array v = false) →
  ∃ e,
    SstConfig.allowedAccounts w = Throw e
    ∧ (e = SstConfig.SyntaxError ∨ ∃ message, e = SstConfig.NotAnArray message)
    ∧ SstConfig.run w =
        SstConfig.Exited 1
          [ SstConfig.Function (js "HonoVanillaLambda") true (js "src/index.handler");
            SstConfig.Function (js "HonoDebugLambda") false (js "src/debug.handler") ]
          [ SstConfig.console_error_reading e ]
    ∧ run_policy w = None
    ∧ gateway_policy (SstConfig.run w) = None.
Proof.
  intros Henv Hne Hfile Hbad.
  assert (∃ e, SstConfig.read_accounts_file w path = Throw e
               ∧ (e = SstConfig.SyntaxError
                  ∨ ∃ message, e = SstConfig.NotAnArray message)) as (e & He & Hkind).
  { unfold SstConfig.read_accounts_file, SstConfig.readFileSync, SstConfig.parse.
    rewrite Hfile. simpl. destruct Hbad as [-> | (v & -> & Hv)]; simpl.
    - eexists. split; [reflexivity | by left].
    - destruct v; try discriminate; eexists; (split; [reflexivity | right; by eexists]). }
  exists e. pose proof (allowedAccounts_file w path Henv Hne) as Ha.
  rewrite He in Ha. unfold run_policy, SstConfig.run. rewrite Ha.
  repeat split; done.
Qed.

Lemma unparsable_file_aborts_witness :
  SstConfig.env object_file !! FILE = Some accounts_json
  ∧ accounts_json ≠ []
  ∧ SstConfig.files object_file !! accounts_json
    = Some (json_text "{'accounts': ['o-aaa111']}")
  ∧ ∃ e, SstConfig.run object_file =
        SstConfig.Exited 1
          [ SstConfig.Function (js "HonoVanillaLambda") true (js "src/index.handler");
            SstConfig.Function (js "HonoDebugLambda") false (js "src/debug.handler") ]
          [ SstConfig.console_error_reading e ].
Proof.
  assert (SstConfig.env object_file !! FILE = Some accounts_json) as Henv
    by reflexivity.
  assert (SstConfig.files object_file !! accounts_json
          = Some (json_text "{'accounts': ['o-aaa111']}")) as Hfile by reflexivity.
  assert (accounts_json ≠ []) as Hne by discriminate.
  assert (JSON_parse (json_text "{'accounts': ['o-aaa111']}") = None
          ∨ ∃ v, JSON_parse (json_text "{'accounts': ['o-aaa111']}") = Some v
                 ∧ is_array v = false) as Hbad.
  { right. eexists. split; [vm_compute; reflexivity | reflexivity]. }
  destruct (unparsable_file_aborts object_file accounts_json _ Henv Hne Hfile Hbad)
    as (e & _ & _ & Hrun & _).
  split; [assumption|]. split; [assumption|]. split; [assumption|].
  exists e. exact Hrun.
Defined.

(** C4: when both variables are set, the allow-list is what the file gives,
    whatever the inline string is or becomes, and so is the whole run; the
    inline string decides only once the file variable is gone, and then no
    file matters. *)
Theorem file_source_precedence (w : SstConfig.platform) (path inline : jsstring)
    (other : option jsstring) (fs : gmap jsstring jsstring) :
  SstConfig.env w !! FILE = Some path → path ≠ [] →
  SstConfig.env w !! INLINE = Some inline → inline ≠ [] →
  let w_other := with_env w (partial_alter (λ _, other) INLINE (SstConfig.env w)) in
  let w_inline := with_env w (delete FILE (SstConfig.env w)) in
  SstConfig.allowedAccounts w = SstConfig.read_accounts_file w path
  ∧ SstConfig.allowedAccounts w_other = SstConfig.allowedAccounts w
  ∧ SstConfig.run w_other = SstConfig.run w
  ∧ SstConfig.allowedAccounts w_inline = Ok (JString ∘ trim <$> split_comma inline)
  ∧ SstConfig.allowedAccounts (with_files w_inline fs)
    = SstConfig.allowedAccounts w_inline.
Proof.
  intros Hfile Hne Hinl Hine w_other w_inline.
  assert (SstConfig.allowedAccounts w_other = SstConfig.allowedAccounts w) as Hother.
  { rewrite (allowedAccounts_file w path Hfile Hne).
    rewrite (allowedAccounts_file w_other path); [reflexivity | | done].
    simpl. by rewrite lookup_partial_alter_ne. }
  assert (truthy (SstConfig.env w_inline !! FILE) = false) as Hgone.
  { simpl. by rewrite lookup_delete_eq. }
  assert (SstConfig.env w_inline !! INLINE = Some inline) as Hinl'.
  { simpl. by rewrite lookup_delete_ne. }
  split; [by apply allowedAccounts_file|].
  split; [done|].
  split; [by apply run_depends_on_accounts|].
  split.
  - rewrite (allowedAccounts_no_file w_inline Hgone), Hinl'.
    destruct inline; [done | reflexivity].
  - rewrite (allowedAccounts_no_file w_inline Hgone).
    by rewrite (allowedAccounts_no_file (with_files w_inline fs) Hgone).
Qed.

Lemma file_source_precedence_witness :
  SstConfig.env both_sources !! FILE = Some accounts_json
  ∧ SstConfig.env both_sources !! INLINE = Some (js "o-inline1, o-inline2")
  ∧ SstConfig.allowedAccounts both_sources = Ok [JString (js "o-file1")]
  ∧ SstConfig.allowedAccounts
      (with_env both_sources (delete FILE (SstConfig.env both_sources)))
    = Ok [JString (js "o-inline1"); JString (js "o-inline2")].
Proof.
  assert (SstConfig.env both_sources !! FILE = Some accounts_json) as Hfile
    by reflexivity.
  assert (SstConfig.env both_sources !! INLINE = Some (js "o-inline1, o-inline2"))
    as Hinl by reflexivity.
  destruct (file_source_precedence both_sources accounts_json
              (js "o-inline1, o-inline2") None ∅ Hfile ltac:(discriminate)
              Hinl ltac:(discriminate)) as (H1 & _ & _ & H4 & _).
  split; [exact Hfile|]. split; [exact Hinl|]. split.
  - rewrite H1. vm_compute. reflexivity.
  - rewrite H4. vm_compute. reflexivity.
Defined.

(** C9: the run exits exactly when the file variable is set (non-empty, the
    test of line 49) and reading the file fails, or its content is not JSON,
    or the JSON is not an array. An array is taken as it is, whatever its
    elements, and becomes the condition of the policy. Without the file
    variable the run completes, whatever the inline string. *)
Theorem abort_iff_file_source_fails (w : SstConfig.platform) :
  ((∃ code d c, SstConfig.run w = SstConfig.Exited code d c) ↔
   ∃ path, SstConfig.env w !! FILE = Some path ∧ path ≠ []
     ∧ (SstConfig.files w !! path = None
        ∨ ∃ data, SstConfig.files w !! path = Some data
            ∧ (JSON_parse data = None
               ∨ ∃ v, JSON_parse data = Some v ∧ is_array v = false)))
  ∧ (∀ path data elems,
       SstConfig.env w !! FILE = Some path → path ≠ [] →
       SstConfig.files w !! path = Some data →
       JSON_parse data = Some (JArray elems) →
       SstConfig.allowedAccounts w = Ok elems
       ∧ (elems ≠ [] →
          ∃ p, run_policy w = Some p ∧ identifiers p = elems))
  ∧ (truthy (SstConfig.env w !! FILE) = false →
     ∃ d c, SstConfig.run w = SstConfig.Completed d c).
Proof.
  split; [| split].
  - rewrite run_exited. destruct (truthy (SstConfig.env w !! FILE)) eqn:Ht.
    + apply truthy_Some in Ht as (path & Henv & Hne).
      rewrite (allowedAccounts_file w path Henv Hne), read_accounts_file_throws.
      split.
      * intros H. by exists path.
      * intros (path' & Henv' & _ & H). by simplify_eq.
    + split.
      * intros [e He]. rewrite (allowedAccounts_no_file w Ht) in He.
        destruct (truthy (SstConfig.env w !! INLINE)); discriminate.
      * intros (path & Henv & Hne & _).
        assert (truthy (SstConfig.env w !! FILE) = true) as Ht'
          by (apply truthy_Some; eauto).
        congruence.
  - intros path data elems Henv Hne Hfile Hparse.
    rewrite (allowedAccounts_file w path Henv Hne).
    rewrite (read_accounts_file_array w path data elems Hfile Hparse).
    split; [done|]. intros Hel. unfold run_policy.
    rewrite (allowedAccounts_file w path Henv Hne).
    rewrite (read_accounts_file_array w path data elems Hfile Hparse).
    destruct elems as [|a l]; [done|]. eexists. split; [reflexivity|].
    unfold identifiers. simpl. by rewrite app_nil_r.
  - intros Ht. unfold SstConfig.run. rewrite (allowedAccounts_no_file w Ht).
    destruct (truthy (SstConfig.env w !! INLINE));
      destruct (SstConfig.transform_api _ _ _) as [[? ?] ?]; by eexists _, _.
Qed.

(** A file with a number and null: both end up in the policy. *)
Lemma abort_iff_file_source_fails_witness :
  SstConfig.allowedAccounts numbers_file = Ok [JNumber (num 111111111111); JNull]
  ∧ ∃ p, run_policy numbers_file = Some p
         ∧ identifiers p = [JNumber (num 111111111111); JNull].
Proof.
  destruct (abort_iff_file_source_fails numbers_file) as (_ & H & _).
  destruct (H accounts_json (json_text "[111111111111, null]")
              [JNumber (num 111111111111); JNull]) as [Ha Hp].
  - reflexivity.
  - discriminate.
  - reflexivity.
  - vm_compute. reflexivity.
  - split; [exact Ha|]. apply Hp. discriminate.
Defined.

(** ** split and trim *)

Lemma trim_start_suffix (s : jsstring) : ∃ a, s = a ++ trim_start s.
Proof.
  induction s as [|c s [a IH]]; [by exists []|]. simpl.
  destruct (is_js_space c).
  - exists (c :: a). simpl. by f_equal.
  - by exists [].
Qed.

Lemma trim_start_head (s : jsstring) (c : N) :
  head (trim_start s) = Some c → is_js_space c = false.
Proof.
  induction s as [|d s IH]; simpl; [done|].
  destruct (is_js_space d) eqn:Hd; [done|]. simpl. by intros [= <-].
Qed.

Lemma trim_start_fixed (s : jsstring) :
  (∀ c, head s = Some c → is_js_space c = false) → trim_start s = s.
Proof. destruct s as [|c s]; simpl; [done|]. intros H. by rewrite (H c). Qed.

Lemma trim_start_idemp (s : jsstring) : trim_start (trim_start s) = trim_start s.
Proof. apply trim_start_fixed, trim_start_head. Qed.

Lemma trim_end_prefix (s : jsstring) : ∃ b, s = trim_end s ++ b.
Proof.
  unfold trim_end. destruct (trim_start_suffix (reverse s)) as [a Ha].
  exists (reverse a). rewrite <- reverse_app, <- Ha. by rewrite reverse_involutive.
Qed.

Lemma trim_end_idemp (s : jsstring) : trim_end (trim_end s) = trim_end s.
Proof. unfold trim_end. by rewrite reverse_involutive, trim_start_idemp. Qed.

(** Trimming a trimmed string changes nothing. *)
Lemma trim_idemp (s : jsstring) : trim (trim s) = trim s.
Proof.
  unfold trim. rewrite (trim_start_fixed (trim_end (trim_start s))).
  - apply trim_end_idemp.
  - intros c Hc. destruct (trim_end_prefix (trim_start s)) as [b Hb].
    apply (trim_start_head s). rewrite Hb.
    destruct (trim_end (trim_start s)); [done | exact Hc].
Qed.

Lemma elem_of_trim (c : N) (s : jsstring) : c ∈ trim s → c ∈ s.
Proof.
  unfold trim. intros H.
  destruct (trim_start_suffix s) as [a Ha].
  destruct (trim_end_prefix (trim_start s)) as [b Hb].
  rewrite Ha, Hb. set_solver.
Qed.

Lemma split_comma_nonempty (s : jsstring) : split_comma s ≠ [].
Proof.
  induction s as [|c s IH]; simpl; [done|].
  destruct (c =? Ch.comma)%N; [done|]. by destruct (split_comma s).
Qed.

Lemma split_comma_pieces (s piece : jsstring) :
  piece ∈ split_comma s → Ch.comma ∉ piece.
Proof.
  revert piece. induction s as [|c s IH]; simpl; intros piece.
  - intros ->%list_elem_of_singleton. apply not_elem_of_nil.
  - destruct (c =? Ch.comma)%N eqn:Hc.
    + intros [-> | H]%elem_of_cons; [apply not_elem_of_nil | by apply IH].
    + destruct (split_comma s) as [|h t]; simpl.
      * intros ->%list_elem_of_singleton.
        intros E%list_elem_of_singleton. rewrite <- E in Hc.
        by rewrite N.eqb_refl in Hc.
      * intros [-> | H]%elem_of_cons.
        -- intros [E | H']%elem_of_cons.
           ++ rewrite <- E in Hc. by rewrite N.eqb_refl in Hc.
           ++ by apply (IH h); [left|].
        -- apply IH. by right.
Qed.

Lemma trim_start_spaces (s : jsstring) :
  ∃ a, s = a ++ trim_start s ∧ Forall (λ c, is_js_space c = true) a.
Proof.
  induction s as [|c s (a & Ha & Hsp)]; [by exists []|]. simpl.
  destruct (is_js_space c) eqn:Hc.
  - exists (c :: a). split; [simpl; by f_equal | by constructor].
  - by exists [].
Qed.

Lemma trim_end_spaces (s : jsstring) :
  ∃ b, s = trim_end s ++ b ∧ Forall (λ c, is_js_space c = true) b.
Proof.
  unfold trim_end. destruct (trim_start_spaces (reverse s)) as (a & Ha & Hsp).
  exists (reverse a). split.
  - rewrite <- reverse_app, <- Ha. by rewrite reverse_involutive.
  - by apply Forall_reverse.
Qed.

(** What [trim] returns: the string without the white space at its two
    ends. *)
Lemma trim_ends (s : jsstring) :
  ∃ a b, s = a ++ trim s ++ b
         ∧ Forall (λ c, is_js_space c = true) a
         ∧ Forall (λ c, is_js_space c = true) b
         ∧ (∀ c, head (trim s) = Some c → is_js_space c = false)
         ∧ (∀ c, last (trim s) = Some c → is_js_space c = false).
Proof.
  destruct (trim_start_spaces s) as (a & Ha & Hsa).
  destruct (trim_end_spaces (trim_start s)) as (b & Hb & Hsb).
  exists a, b. unfold trim. rewrite <- Hb. repeat split; try done.
  - intros c Hc. apply (trim_start_head s). rewrite Hb.
    destruct (trim_end (trim_start s)); [done | exact Hc].
  - intros c Hc. unfold trim_end in Hc. rewrite last_reverse in Hc.
    by apply trim_start_head in Hc.
Qed.

(** C7, as amended: an allow-list from the inline string holds strings
    that are white-space-trimmed and comma-free, possibly empty: each is a
    piece of the string between commas without the white space at its two
    ends, so it neither starts nor ends with white space and has no comma;
    the condition of a policy is the allow-list as it was read, and that
    list is not empty. *)
Theorem allow_list_entries (w : SstConfig.platform) (accounts : list jsvalue) :
  SstConfig.allowedAccounts w = Ok accounts →
  (truthy (SstConfig.env w !! FILE) = false →
   ∀ x, x ∈ accounts →
     ∃ s inline a b,
       x = JString s
       ∧ SstConfig.env w !! INLINE = Some inline
       ∧ a ++ s ++ b ∈ split_comma inline
       ∧ Forall (λ c, is_js_space c = true) a
       ∧ Forall (λ c, is_js_space c = true) b
       ∧ (∀ c, head s = Some c → is_js_space c = false)
       ∧ (∀ c, last s = Some c → is_js_space c = false)
       ∧ Ch.comma ∉ s)
  ∧ (∀ p, run_policy w = Some p →
          identifiers p = accounts ∧ accounts ≠ []).
Proof.
  intros Ha. split.
  - intros Ht x Hx. rewrite (allowedAccounts_no_file w Ht) in Ha.
    destruct (truthy (SstConfig.env w !! INLINE)) eqn:Hinl; simplify_eq;
      [| by apply not_elem_of_nil in Hx].
    apply truthy_Some in Hinl as (inline & Hinline & _).
    rewrite Hinline in Hx. simpl in Hx.
    apply list_elem_of_fmap in Hx as (piece & -> & Hpiece).
    destruct (trim_ends piece) as (a & b & Hshape & Hsa & Hsb & Hhead & Hlast).
    exists (trim piece), inline, a, b. simpl.
    split; [done|]. split; [done|]. split; [by rewrite <- Hshape|].
    split; [done|]. split; [done|]. split; [done|]. split; [done|].
    intros Hc%elem_of_trim. by apply (split_comma_pieces _ _ Hpiece).
  - intros p. unfold run_policy. rewrite Ha. apply policy_Some.
Qed.

(** The inline string " o-aaa111 ,, o-bbb222": the white space around the
    entries is gone, the empty entry stays. *)
Lemma allow_list_entries_witness :
  SstConfig.allowedAccounts (provision None (Some (js " o-aaa111 ,, o-bbb222")) ∅)
    = Ok [JString (js "o-aaa111"); JString []; JString (js "o-bbb222")]
  ∧ truthy (SstConfig.env (provision None (Some (js " o-aaa111 ,, o-bbb222")) ∅)
              !! FILE) = false
  ∧ (∀ x, x ∈ [JString (js "o-aaa111"); JString []; JString (js "o-bbb222")] →
       ∃ s inline a b,
         x = JString s
         ∧ SstConfig.env (provision None (Some (js " o-aaa111 ,, o-bbb222")) ∅)
             !! INLINE = Some inline
         ∧ a ++ s ++ b ∈ split_comma inline
         ∧ Forall (λ c, is_js_space c = true) a
         ∧ Forall (λ c, is_js_space c = true) b
         ∧ (∀ c, head s = Some c → is_js_space c = false)
         ∧ (∀ c, last s = Some c → is_js_space c = false)
         ∧ Ch.comma ∉ s)
  ∧ ∀ p, run_policy (provision None (Some (js " o-aaa111 ,, o-bbb222")) ∅) = Some p →
         identifiers p = [JString (js "o-aaa111"); JString []; JString (js "o-bbb222")].
Proof.
  assert (SstConfig.allowedAccounts
            (provision None (Some (js " o-aaa111 ,, o-bbb222")) ∅)
          = Ok [JString (js "o-aaa111"); JString []; JString (js "o-bbb222")])
    as Ha by (vm_compute; reflexivity).
  assert (truthy (SstConfig.env
                    (provision None (Some (js " o-aaa111 ,, o-bbb222")) ∅) !! FILE)
          = false) as Hf by reflexivity.
  destruct (allow_list_entries _ _ Ha) as [Hentries Hpolicy].
  split; [exact Ha|]. split; [exact Hf|]. split; [exact (Hentries Hf)|].
  intros p Hp. destruct (Hpolicy p Hp) as [Hid _]. exact Hid.
Defined.

(** C7, as stated, fails: the inline string "o-aaa111,,o-bbb222" gives an
    allow-list with an empty string in it, and the policy carries it. *)
Lemma empty_identifier_counterexample :
  SstConfig.allowedAccounts inline_with_gap
    = Ok [JString (js "o-aaa111"); JString []; JString (js "o-bbb222")]
  ∧ ∃ p, run_policy inline_with_gap = Some p
         ∧ JString [] ∈ identifiers p.
Proof.
  split; [vm_compute; reflexivity|].
  eexists. split; [vm_compute; reflexivity|].
  vm_compute. apply list_elem_of_further, list_elem_of_here.
Qed.

(** ** JSON.parse after JSON.stringify *)

Section Strings.
Local Open Scope N_scope.

Lemma hex_value_digit (n : N) : n < 16 → hex_value (hex_digit n) = Some n.
Proof.
  intros Hn. unfold hex_value, hex_digit, is_digit, Ch.zero, Ch.nine.
  destruct (n <? 10) eqn:H10.
  - apply N.ltb_lt in H10.
    rewrite (proj2 (N.leb_le 48 (48 + n))), (proj2 (N.leb_le (48 + n) 57)) by lia.
    simpl. f_equal. lia.
  - apply N.ltb_ge in H10.
    rewrite (proj2 (N.leb_gt (87 + n) 57)), andb_false_r by lia.
    rewrite (proj2 (N.leb_le 97 (87 + n))), (proj2 (N.leb_le (87 + n) 102)) by lia.
    simpl. f_equal. lia.
Qed.

Lemma parse_escaped_unit (c : N) (s : jsstring) :
  c < 65536 →
  parse_string_body (UnicodeEscape c ++ s) =
  '(t, rest) ← parse_string_body s; Some (c :: t, rest).
Proof.
  intros Hc. unfold UnicodeEscape.
  change (parse_string_body (_ ++ s)) with
    (a ← hex_value (hex_digit (c / 4096 mod 16));
     b ← hex_value (hex_digit (c / 256 mod 16));
     c' ← hex_value (hex_digit (c / 16 mod 16));
     d ← hex_value (hex_digit (c mod 16));
     '(t, rest) ← parse_string_body s;
     Some ((a * 4096 + b * 256 + c' * 16 + d) :: t, rest)).
  rewrite !hex_value_digit by (apply N.mod_lt; lia). simpl.
  replace (c / 4096 mod 16 * 4096 + c / 256 mod 16 * 256
           + c / 16 mod 16 * 16 + c mod 16) with c; [done|].
  clear s. zify. Z.to_euclidean_division_equations. lia.
Qed.
End Strings.

Section StringLiterals.
Local Open Scope N_scope.

Lemma parse_verbatim_unit (c : N) (s : jsstring) :
  c ≠ Ch.quote → c ≠ Ch.backslash → 32 ≤ c →
  parse_string_body (c :: s) =
  '(t, rest) ← parse_string_body s; Some (c :: t, rest).
Proof.
  intros Hq Hb Hc. simpl.
  rewrite (proj2 (N.eqb_neq c Ch.quote) Hq).
  rewrite (proj2 (N.eqb_neq c Ch.backslash) Hb).
  by rewrite (proj2 (N.ltb_ge c 32) Hc).
Qed.

Lemma parse_quote_unit (c : N) (s : jsstring) :
  parse_string_body (quote_unit c ++ s) =
  '(t, rest) ← parse_string_body s; Some (c :: t, rest).
Proof.
  unfold quote_unit.
  repeat match goal with
         | |- context [if (c =? ?k) then _ else _] =>
             destruct (N.eqb_spec c k) as [-> | ?]; [reflexivity |]
         end.
  destruct ((c <? 32) || is_leading_surrogate c || is_trailing_surrogate c)
    eqn:Hesc.
  - apply parse_escaped_unit.
    unfold is_leading_surrogate, is_trailing_surrogate in Hesc.
    apply orb_true_iff in Hesc as [Hesc | Hesc];
      [apply orb_true_iff in Hesc as [Hesc | Hesc] |].
    + apply N.ltb_lt in Hesc. lia.
    + apply andb_true_iff in Hesc as [_ Hesc]. apply N.leb_le in Hesc. lia.
    + apply andb_true_iff in Hesc as [_ Hesc]. apply N.leb_le in Hesc. lia.
  - apply orb_false_iff in Hesc as [Hesc _].
    apply orb_false_iff in Hesc as [Hesc _]. apply N.ltb_ge in Hesc.
    by apply parse_verbatim_unit.
Qed.

Lemma parse_surrogate (c : N) (s : jsstring) :
  is_leading_surrogate c = true ∨ is_trailing_surrogate c = true →
  parse_string_body (c :: s) =
  '(t, rest) ← parse_string_body s; Some (c :: t, rest).
Proof.
  unfold is_leading_surrogate, is_trailing_surrogate, Ch.quote, Ch.backslash.
  intros [H | H]; apply andb_true_iff in H as [H _]; apply N.leb_le in H;
    apply parse_verbatim_unit; unfold Ch.quote, Ch.backslash; lia.
Qed.

(** A quoted string parses back to the string. *)
Lemma parse_quote_units (s rest : jsstring) :
  parse_string_body (quote_units s ++ Ch.quote :: rest) = Some (s, rest).
Proof.
  cut (parse_string_body (quote_units s ++ Ch.quote :: rest) = Some (s, rest)
       ∧ ∀ c, parse_string_body (quote_units (c :: s) ++ Ch.quote :: rest)
              = Some (c :: s, rest)); [by intros [? _]|].
  induction s as [|d s [IH0 IH1]].
  - split; [reflexivity|]. intros c. simpl.
    destruct (is_leading_surrogate c) eqn:Hl.
    + rewrite parse_escaped_unit; [reflexivity|].
      unfold is_leading_surrogate in Hl.
      apply andb_true_iff in Hl as [_ Hl]. apply N.leb_le in Hl. lia.
    + rewrite app_nil_r, parse_quote_unit. reflexivity.
  - split; [apply IH1|]. intros c.
    change (quote_units (c :: d :: s)) with
      (if is_leading_surrogate c then
         if is_trailing_surrogate d then c :: d :: quote_units s
         else UnicodeEscape c ++ quote_units (d :: s)
       else quote_unit c ++ quote_units (d :: s)).
    destruct (is_leading_surrogate c) eqn:Hl.
    + destruct (is_trailing_surrogate d) eqn:Ht.
      * rewrite <- !app_comm_cons.
        rewrite (parse_surrogate c) by by left.
        rewrite (parse_surrogate d) by by right.
        by rewrite IH0.
      * rewrite <- app_assoc, parse_escaped_unit, (IH1 d); [reflexivity|].
        unfold is_leading_surrogate in Hl.
        apply andb_true_iff in Hl as [_ Hl]. apply N.leb_le in Hl. lia.
    + by rewrite <- app_assoc, parse_quote_unit, (IH1 d).
Qed.
End StringLiterals.

Section Values.

Lemma jsvalue_nested_ind (P : jsvalue → Prop) :
  P JUndefined → P JNull → (∀ b, P (JBool b)) → (∀ n, P (JNumber n)) →
  (∀ s, P (JString s)) →
  (∀ elems, Forall P elems → P (JArray elems)) →
  (∀ props, Forall (λ kx, P kx.2) props → P (JObject props)) →
  ∀ v, P v.
Proof.
  intros Hu Hn Hb Hnum Hs Harr Hobj. fix IH 1.
  intros [| | b | n | s | elems | props];
    [exact Hu | exact Hn | apply Hb | apply Hnum | apply Hs | |].
  - apply Harr. revert elems. fix IHl 1.
    intros [|x l]; constructor; [apply IH | apply IHl].
  - apply Hobj. revert props. fix IHl 1.
    intros [|[k x] l]; constructor; [apply IH | apply IHl].
Qed.

(** The equations of [SerializeJSONProperty] and [plain] on arrays and
    objects. *)
Lemma Serialize_array (elems : list jsvalue) :
  SerializeJSONProperty (JArray elems) =
  Some ([Ch.lbracket] ++ join [Ch.comma] (element_text <$> elems) ++ [Ch.rbracket]).
Proof.
  reflexivity.
Qed.

Lemma Serialize_object (props : list (jsstring * jsvalue)) :
  SerializeJSONProperty (JObject props) =
  Some ([Ch.lbrace] ++ join [Ch.comma] (omap member_text props) ++ [Ch.rbrace]).
Proof.
  simpl. do 4 f_equal. induction props as [|[k x] l IH]; [done|].
  simpl. unfold member_text at 1. simpl.
  destruct (SerializeJSONProperty x); simpl; by rewrite IH.
Qed.

Lemma plain_array (elems : list jsvalue) :
  plain (JArray elems) = forallb plain elems.
Proof. simpl. induction elems as [|x l IH]; [done|]. simpl. by rewrite IH. Qed.

Lemma plain_object (props : list (jsstring * jsvalue)) :
  plain (JObject props) =
  bool_decide (NoDup props.*1)
  && forallb (λ k, bool_decide (array_index k = None)) props.*1
  && forallb (λ kx, plain kx.2) props.
Proof.
  simpl. f_equal. induction props as [|[k x] l IH]; [done|]. simpl. by rewrite IH.
Qed.

Lemma plain_text (v : jsvalue) :
  plain v = true →
  ∃ c t, SerializeJSONProperty v = Some (c :: t)
         ∧ is_json_ws c = false ∧ (c =? Ch.rbracket)%N = false.
Proof.
  destruct v as [| | [] | n | s | elems | props]; try discriminate; intros _;
    by eexists _, _.
Qed.

Lemma skip_ws_value (c : N) (s : jsstring) :
  is_json_ws c = false → skip_ws (c :: s) = c :: s.
Proof. intros H. simpl. by rewrite H. Qed.

(** The steps of the parser on the texts [SerializeJSONProperty] writes. *)
Lemma parse_value_string (fuel : nat) (s : jsstring) :
  parse_value (S fuel) (Ch.quote :: s) =
  '(str, rest) ← parse_string_body s; Some (JString str, rest).
Proof. reflexivity. Qed.

Lemma parse_value_array (fuel : nat) (c : N) (s : jsstring) :
  is_json_ws c = false → (c =? Ch.rbracket)%N = false →
  parse_value (S fuel) (Ch.lbracket :: c :: s) =
  '(l, rest) ← parse_elements fuel (c :: s); Some (JArray l, rest).
Proof.
  intros Hw Hc.
  change (parse_value (S fuel) (Ch.lbracket :: c :: s)) with
    (match skip_ws (c :: s) with
     | c' :: r' =>
         if (c' =? Ch.rbracket)%N then Some (JArray [], r')
         else '(l, rest) ← parse_elements fuel (c :: s); Some (JArray l, rest)
     | [] => None
     end).
  by rewrite (skip_ws_value c s Hw), Hc.
Qed.

Lemma parse_value_object (fuel : nat) (s : jsstring) :
  parse_value (S fuel) (Ch.lbrace :: Ch.quote :: s) =
  '(l, rest) ← parse_members fuel (Ch.quote :: s);
  Some (JObject (foldl set_property [] l), rest).
Proof. reflexivity. Qed.

Lemma parse_elements_step (fuel : nat) (s : jsstring) :
  parse_elements (S fuel) s =
  '(v, r) ← parse_value fuel s;
  match skip_ws r with
  | c :: r' =>
      if (c =? Ch.comma)%N then
        '(l, rest) ← parse_elements fuel r'; Some (v :: l, rest)
      else if (c =? Ch.rbracket)%N then Some ([v], r')
      else None
  | [] => None
  end.
Proof. reflexivity. Qed.

Lemma parse_members_step (fuel : nat) (s : jsstring) :
  parse_members (S fuel) (Ch.quote :: s) =
  '(k, r1) ← parse_string_body s;
  match skip_ws r1 with
  | c1 :: r2 =>
      if (c1 =? Ch.colon)%N then
        '(v, r3) ← parse_value fuel r2;
        match skip_ws r3 with
        | c3 :: r4 =>
            if (c3 =? Ch.comma)%N then
              '(l, rest) ← parse_members fuel r4; Some ((k, v) :: l, rest)
            else if (c3 =? Ch.rbrace)%N then Some ([(k, v)], r4)
            else None
        | [] => None
        end
      else None
  | [] => None
  end.
Proof. reflexivity. Qed.
End Values.

Section RoundTrip.

Lemma set_property_fresh (props : list (jsstring * jsvalue)) (k : jsstring)
    (v : jsvalue) :
  k ∉ props.*1 → array_index k = None →
  set_property props (k, v) = props ++ [(k, v)].
Proof.
  intros Hk Hi. unfold set_property.
  rewrite bool_decide_eq_false_2 by done. by rewrite Hi.
Qed.

Lemma foldl_set_property (l acc : list (jsstring * jsvalue)) :
  NoDup (acc.*1 ++ l.*1) → Forall (λ k, array_index k = None) l.*1 →
  foldl set_property acc l = acc ++ l.
Proof.
  revert acc. induction l as [|[k v] l IH]; intros acc Hnd Hidx; cbn [foldl].
  - by rewrite app_nil_r.
  - rewrite fmap_cons in Hnd, Hidx. simpl in Hnd, Hidx.
    apply Forall_cons in Hidx as [Hk Hidx].
    rewrite set_property_fresh; [| | done].
    + rewrite IH; [by rewrite <- app_assoc | | done].
      rewrite fmap_app. simpl. by rewrite <- app_assoc.
    + apply NoDup_app in Hnd as (_ & Hnd & _). intros Hin.
      apply (Hnd k Hin). left.
Qed.

Lemma element_text_plain (x : jsvalue) :
  plain x = true →
  ∃ c t, SerializeJSONProperty x = Some (c :: t) ∧ element_text x = c :: t
         ∧ is_json_ws c = false ∧ (c =? Ch.rbracket)%N = false.
Proof.
  intros Hx. destruct (plain_text x Hx) as (c & t & Ht & Hw & Hc).
  exists c, t. unfold element_text. by rewrite Ht.
Qed.

Lemma parse_elements_back (l : list jsvalue) :
  l ≠ [] → Forall (λ x, plain x = true ∧ parses_back x) l →
  ∀ fuel rest,
    (length (join [Ch.comma] (element_text <$> l)) < fuel)%nat →
    parse_elements fuel (join [Ch.comma] (element_text <$> l) ++ Ch.rbracket :: rest)
    = Some (l, rest).
Proof.
  induction l as [|x l IH]; [done|]. intros _ Hall fuel rest Hfuel.
  apply Forall_cons in Hall as [[Hx Hpx] Hall].
  destruct (element_text_plain x Hx) as (c & t & Ht & Hel & _).
  destruct fuel as [|fuel]; [lia|]. rewrite parse_elements_step.
  destruct l as [|y l].
  - simpl in *. rewrite Hel in *.
    rewrite (Hpx _ Ht fuel (Ch.rbracket :: rest)) by (simpl in *; lia).
    reflexivity.
  - rewrite fmap_cons in Hfuel |- *.
    change (join [Ch.comma] (element_text x :: (element_text <$> (y :: l))))
      with (element_text x ++ [Ch.comma]
            ++ join [Ch.comma] (element_text <$> (y :: l))) in *.
    set (J := join [Ch.comma] (element_text <$> (y :: l))) in *.
    rewrite Hel in *. rewrite !length_app in Hfuel. cbn [length] in Hfuel.
    rewrite <- !app_assoc.
    rewrite (Hpx _ Ht fuel) by (cbn [length]; lia).
    cbn [mbind option_bind app]. rewrite skip_ws_value by reflexivity.
    change (Ch.comma =? Ch.comma)%N with true. cbv iota.
    rewrite IH; [reflexivity | done | done | fold J; lia].
Qed.

Lemma omap_member_text (props : list (jsstring * jsvalue)) :
  Forall (λ kx, plain kx.2 = true) props →
  omap member_text props = member_string <$> props.
Proof.
  induction 1 as [|[k x] l Hx _ IH]; [done|].
  destruct (element_text_plain x Hx) as (c & t & Ht & Hel & _).
  rewrite fmap_cons, <- IH. unfold member_string. simpl.
  unfold member_text at 1. simpl. by rewrite Ht, Hel.
Qed.

Lemma member_string_shape (k : jsstring) (x : jsvalue) (rest : jsstring) :
  member_string (k, x) ++ rest =
  Ch.quote :: quote_units k ++ Ch.quote :: Ch.colon :: element_text x ++ rest.
Proof.
  unfold member_string, QuoteJSONString. simpl. by rewrite <- !app_assoc.
Qed.

Lemma member_string_length (k : jsstring) (x : jsvalue) :
  (length (element_text x) < length (member_string (k, x)))%nat.
Proof.
  unfold member_string, QuoteJSONString. simpl. rewrite !length_app. simpl. lia.
Qed.

Lemma parse_members_back (props : list (jsstring * jsvalue)) :
  props ≠ [] → Forall (λ kx, plain kx.2 = true ∧ parses_back kx.2) props →
  ∀ fuel rest,
    (length (join [Ch.comma] (member_string <$> props)) < fuel)%nat →
    parse_members fuel (join [Ch.comma] (member_string <$> props) ++ Ch.rbrace :: rest)
    = Some (props, rest).
Proof.
  induction props as [|[k x] l IH]; [done|]. intros _ Hall fuel rest Hfuel.
  apply Forall_cons in Hall as [[Hx Hpx] Hall]. simpl in Hx, Hpx.
  destruct (element_text_plain x Hx) as (c & t & Ht & Hel & _).
  pose proof (member_string_length k x) as Hlen.
  destruct fuel as [|fuel]; [lia|].
  destruct l as [|y l].
  - cbn [fmap list_fmap join] in Hfuel |- *.
    rewrite member_string_shape, parse_members_step, parse_quote_units.
    cbn [mbind option_bind]. rewrite skip_ws_value by reflexivity.
    change (Ch.colon =? Ch.colon)%N with true. cbv iota.
    rewrite Hel in *.
    rewrite (Hpx _ Ht fuel (Ch.rbrace :: rest)) by lia.
    reflexivity.
  - rewrite fmap_cons in Hfuel |- *.
    change (join [Ch.comma] (member_string (k, x) :: (member_string <$> (y :: l))))
      with (member_string (k, x) ++ [Ch.comma]
            ++ join [Ch.comma] (member_string <$> (y :: l))) in *.
    set (J := join [Ch.comma] (member_string <$> (y :: l))) in *.
    rewrite !length_app in Hfuel. cbn [length] in Hfuel.
    rewrite <- !app_assoc.
    rewrite member_string_shape, parse_members_step, parse_quote_units.
    cbn [mbind option_bind]. rewrite skip_ws_value by reflexivity.
    change (Ch.colon =? Ch.colon)%N with true. cbv iota.
    rewrite Hel in *.
    rewrite (Hpx _ Ht fuel) by lia.
    cbn [mbind option_bind app]. rewrite skip_ws_value by reflexivity.
    change (Ch.comma =? Ch.comma)%N with true. cbv iota.
    rewrite IH; [reflexivity | done | done | fold J; lia].
Qed.

Lemma plain_parses_back (v : jsvalue) : plain v = true → parses_back v.
Proof.
  induction v as [| | b | n | s | elems IH | props IH] using jsvalue_nested_ind;
    try discriminate; intros Hplain text Htext fuel rest Hfuel.
  - injection Htext as <-. destruct fuel; [simpl in Hfuel; lia | reflexivity].
  - destruct b; injection Htext as <-;
      (destruct fuel; [simpl in Hfuel; lia | reflexivity]).
  - injection Htext as <-. destruct fuel; [simpl in Hfuel; lia |].
    unfold QuoteJSONString. cbn [app]. rewrite parse_value_string.
    rewrite <- app_assoc. cbn [app]. by rewrite parse_quote_units.
  - rewrite Serialize_array in Htext. injection Htext as <-.
    rewrite plain_array in Hplain.
    assert (Forall (λ x, plain x = true ∧ parses_back x) elems) as Hall.
    { apply Forall_forall. intros x Hx.
      assert (plain x = true) as Hpx.
      { rewrite forallb_forall in Hplain. by apply Hplain, list_elem_of_In. }
      split; [done|]. rewrite Forall_forall in IH. by apply IH. }
    destruct fuel as [|fuel]; [simpl in Hfuel; lia|].
    destruct elems as [|x l]; [reflexivity|].
    pose proof (parse_elements_back (x :: l) ltac:(done) Hall fuel rest) as Hback.
    cbn [length app] in Hfuel. rewrite ?length_app in Hfuel.
    cbn [length] in Hfuel.
    set (J := join [Ch.comma] (element_text <$> x :: l)) in *.
    assert (∃ c t, J = c :: t ∧ is_json_ws c = false
                   ∧ (c =? Ch.rbracket)%N = false) as (c & t & HJ & Hw & Hc).
    { apply Forall_cons in Hall as [[Hx _] _].
      destruct (element_text_plain x Hx) as (c & t & _ & Hel & Hw & Hc).
      subst J. rewrite fmap_cons. destruct (element_text <$> l);
        cbn [join]; rewrite Hel; by eexists _, _. }
    cbn [app]. rewrite <- ?app_assoc. cbn [app]. rewrite HJ in Hback, Hfuel |- *.
    cbn [app].
    rewrite parse_value_array by done.
    cbn [app] in Hback. rewrite Hback; [reflexivity | lia].
  - rewrite Serialize_object in Htext. injection Htext as <-.
    rewrite plain_object in Hplain.
    apply andb_true_iff in Hplain as [Hkeys Hvals].
    apply andb_true_iff in Hkeys as [Hnd Hidx].
    apply bool_decide_eq_true in Hnd.
    assert (Forall (λ kx, plain kx.2 = true) props) as Hpl.
    { apply Forall_forall. intros kx Hkx. rewrite forallb_forall in Hvals.
      by apply Hvals, list_elem_of_In. }
    assert (Forall (λ kx, plain kx.2 = true ∧ parses_back kx.2) props) as Hall.
    { apply Forall_forall. intros kx Hkx. rewrite Forall_forall in IH, Hpl.
      split; [by apply Hpl | apply IH; [done | by apply Hpl]]. }
    rewrite (omap_member_text props Hpl) in Hfuel |- *.
    destruct fuel as [|fuel]; [simpl in Hfuel; lia|].
    destruct props as [|[k x] l]; [reflexivity|].
    pose proof (parse_members_back ((k, x) :: l) ltac:(done) Hall fuel rest) as Hback.
    cbn [length app] in Hfuel. rewrite ?length_app in Hfuel.
    cbn [length] in Hfuel.
    set (J := join [Ch.comma] (member_string <$> (k, x) :: l)) in *.
    assert (∃ t, J = Ch.quote :: t) as (t & HJ).
    { subst J. rewrite fmap_cons. destruct (member_string <$> l);
        cbn [join]; by eexists. }
    cbn [app]. rewrite <- ?app_assoc. cbn [app]. rewrite HJ in Hback, Hfuel |- *.
    cbn [app].
    rewrite parse_value_object. cbn [app] in Hback.
    rewrite Hback by lia. cbn [mbind option_bind].
    rewrite foldl_set_property; [reflexivity | done |].
    apply Forall_forall. intros key Hkey. rewrite forallb_forall in Hidx.
    eapply bool_decide_eq_true_1, Hidx. by apply list_elem_of_In.
Qed.

(** [JSON.parse(JSON.stringify(v))] is [v] for every plain [v]. *)
Lemma JSON_parse_stringify (v : jsvalue) :
  plain v = true →
  ∃ text, JSON_stringify v = Some text ∧ JSON_parse text = Some v.
Proof.
  intros Hv. destruct (plain_text v Hv) as (c & t & Htext & _).
  exists (c :: t). split; [exact Htext|].
  unfold JSON_parse.
  pose proof (plain_parses_back v Hv _ Htext (2 * length (c :: t) + 2)%nat []) as H.
  rewrite app_nil_r in H. rewrite H by lia. reflexivity.
Qed.
End RoundTrip.

(** ** sst.config.ts: the JSON text of the policy *)

Lemma plain_policy (accounts : list jsvalue) (p : SstConfig.ResourcePolicy) :
  Forall (λ x, plain x = true) accounts →
  SstConfig.policy accounts = Some p →
  plain (SstConfig.ResourcePolicy_value p) = true.
Proof.
  intros Hall Hp. unfold SstConfig.policy in Hp.
  destruct (0 <? length accounts)%nat; [|done]. injection Hp as <-.
  assert (plain (JArray accounts) = true) as Harr.
  { rewrite plain_array. apply forallb_forall. intros x Hx.
    rewrite Forall_forall in Hall. by apply Hall, list_elem_of_In. }
  unfold SstConfig.ResourcePolicy_value, SstConfig.Statement_value.
  cbn [SstConfig.Version SstConfig.Statement_ SstConfig.Sid SstConfig.Effect
       SstConfig.Principal SstConfig.Action SstConfig.Resource
       SstConfig.Condition_ SstConfig.ForAnyValue_StringEquals__aws_PrincipalOrgID
       fmap list_fmap].
  repeat (rewrite plain_object; cbn [fmap list_fmap fst snd forallb plain];
          repeat (apply andb_true_intro; split);
          try exact Harr;
          try (lazymatch goal with
               | |- context [accounts] => fail
               | |- _ => vm_compute; reflexivity
               end)).
Qed.

(** The text of a policy over plain identifiers parses back to it. *)
Lemma plain_policy_parses_back (accounts : list jsvalue)
    (p : SstConfig.ResourcePolicy) :
  Forall (λ x, plain x = true) accounts →
  SstConfig.policy accounts = Some p →
  ∃ text,
    JSON_stringify (SstConfig.ResourcePolicy_value p) = Some text
    ∧ (∀ args name, (SstConfig.transform_api (Some p) args name).1.1
                      !! "policy"%string = Some (JString text))
    ∧ JSON_parse text = Some (SstConfig.ResourcePolicy_value p).
Proof.
  intros Hplain Hp.
  destruct (JSON_parse_stringify _ (plain_policy accounts p Hplain Hp))
    as (text & Htext & Hparse).
  exists text. split; [done|]. split; [|done].
  intros args name. unfold SstConfig.transform_api. cbn [fst snd].
  by rewrite Htext, lookup_insert_eq.
Qed.

(** Every policy a run builds from the inline string has a text that parses
    back to it. *)
Lemma inline_policy_parses_back (w : SstConfig.platform)
    (p : SstConfig.ResourcePolicy) :
  truthy (SstConfig.env w !! FILE) = false →
  run_policy w = Some p →
  ∃ text,
    JSON_stringify (SstConfig.ResourcePolicy_value p) = Some text
    ∧ gateway_policy (SstConfig.run w) = Some (JString text)
    ∧ JSON_parse text = Some (SstConfig.ResourcePolicy_value p).
Proof.
  intros Hfile Hp. unfold run_policy, gateway_policy, SstConfig.run in *.
  rewrite (allowedAccounts_no_file w Hfile) in *.
  destruct (truthy (SstConfig.env w !! INLINE)); [|done].
  set (accounts := JString ∘ trim <$> _) in *.
  assert (Forall (λ x, plain x = true) accounts) as Hplain.
  { apply Forall_forall. intros x (piece & -> & _)%list_elem_of_fmap. done. }
  destruct (plain_policy_parses_back accounts p Hplain Hp)
    as (text & Htext & Hargs & Hparse).
  exists text. split; [done|]. split; [|done].
  rewrite Hp. specialize (Hargs (SstConfig.api_args w) (SstConfig.api_name w)).
  destruct (SstConfig.transform_api _ _ _) as [[args r] console].
  exact Hargs.
Qed.

(** C8, as amended: for every policy whose identifiers are strings, as
    [ResourcePolicy] declares them, the text [JSON.stringify] writes for it,
    which the transform stores in [args.policy], is parsed by [JSON.parse]
    back to an equal document. *)
Theorem policy_json_roundtrip (ids : list jsstring)
    (p : SstConfig.ResourcePolicy) :
  SstConfig.policy (JString <$> ids) = Some p →
  ∃ text,
    JSON_stringify (SstConfig.ResourcePolicy_value p) = Some text
    ∧ (∀ args name, (SstConfig.transform_api (Some p) args name).1.1
                      !! "policy"%string = Some (JString text))
    ∧ JSON_parse text = Some (SstConfig.ResourcePolicy_value p).
Proof.
  apply plain_policy_parses_back, Forall_forall.
  by intros x (s & -> & _)%list_elem_of_fmap.
Qed.

Lemma policy_json_roundtrip_witness :
  ∃ p text,
    SstConfig.policy (JString <$> [js "o-aaa111"; js "o-bbb222"]) = Some p
    ∧ JSON_stringify (SstConfig.ResourcePolicy_value p) = Some text
    ∧ JSON_parse text = Some (SstConfig.ResourcePolicy_value p).
Proof.
  eexists.
  destruct (policy_json_roundtrip [js "o-aaa111"; js "o-bbb222"] _ eq_refl)
    as (text & Htext & _ & Hparse).
  exists text. split; [reflexivity|]. split; [exact Htext | exact Hparse].
Defined.

(** The text of the policy for one identifier. *)
Example policy_text_example :
  (p ← SstConfig.policy [JString (js "o-aaa111")];
   JSON_stringify (SstConfig.ResourcePolicy_value p)) =
  Some (json_text
    "{'Version':'2012-10-17','Statement':[{'Sid':'AllowAccessForAllowedAccounts','Effect':'Allow','Principal':'*','Action':'execute-api:Invoke','Resource':'*','Condition':{'ForAnyValue:StringEquals':{'aws:PrincipalOrgID':['o-aaa111']}}}]}").
Proof. vm_compute. reflexivity. Qed.

(** C8, as stated, fails: a file holding [1e999] gives the identifier
    Infinity; [JSON.stringify] writes it as null, and the text parses to the
    policy whose identifier is null, a different document. *)
Lemma overflow_roundtrip_counterexample :
  run_policy overflow_file = SstConfig.policy [JNumber (Infinity false)]
  ∧ ∃ p q text,
      SstConfig.policy [JNumber (Infinity false)] = Some p
      ∧ SstConfig.policy [JNull] = Some q
      ∧ JSON_stringify (SstConfig.ResourcePolicy_value p) = Some text
      ∧ JSON_parse text = Some (SstConfig.ResourcePolicy_value q)
      ∧ SstConfig.ResourcePolicy_value q ≠ SstConfig.ResourcePolicy_value p.
Proof.
  split; [vm_compute; reflexivity|].
  eexists _, _, _. split; [reflexivity|]. split; [reflexivity|].
  split; [vm_compute; reflexivity|]. split; [vm_compute; reflexivity|].
  vm_compute. discriminate.
Qed.

(** ** The fuel of JSON.parse *)

Section Fuel.

Lemma skip_ws_length (s : jsstring) : (length (skip_ws s) ≤ length s)%nat.
Proof.
  induction s as [|c s IH]; simpl; [done|].
  destruct (is_json_ws c); simpl; lia.
Qed.

Lemma parse_string_body_length (s t rest : jsstring) :
  parse_string_body s = Some (t, rest) → (length rest < length s)%nat.
Proof.
  remember (length s) as n eqn:Hn. revert s t rest Hn.
  induction (lt_wf n) as [n _ IH]. intros s t rest -> H.
  destruct s as [|c r]; [done|]. simpl in H.
  assert (∀ r' u, (length r' < length (c :: r))%nat →
                  ('(t', rest') ← parse_string_body r'; Some (u :: t', rest'))
                  = Some (t, rest) →
                  (length rest < length r')%nat) as Hrec.
  { intros r' u Hlen Hr'.
    destruct (parse_string_body r') as [[t' rest']|] eqn:Hp; [|done].
    simpl in Hr'. injection Hr' as <- <-. by eapply (IH _ Hlen r'). }
  repeat case_match; simplify_eq; simpl in *; try lia;
    repeat match goal with
           | H : context [hex_value ?x] |- _ =>
               destruct (hex_value x); simpl in H; [|done]
           end;
    match goal with
    | H : _ ≫= _ = Some _ |- _ => apply Hrec in H; simpl in *; lia
    end.
Qed.

Lemma take_digits_length (s : jsstring) (acc cnt v n : Z) (rest : jsstring) :
  take_digits acc cnt s = (v, n, rest) → (length rest ≤ length s)%nat.
Proof.
  revert acc cnt. induction s as [|c s IH]; intros acc cnt; simpl.
  - by intros [= _ _ <-].
  - destruct (is_digit c).
    + intros H%IH. lia.
    + by intros [= _ _ <-].
Qed.

Lemma parse_number_length (s : jsstring) (n : number) (rest : jsstring) :
  parse_number s = Some (n, rest) → (length rest < length s)%nat.
Proof.
  unfold parse_number. intros H.
  repeat (case_match; simplify_eq; simpl in * );
    repeat match goal with
           | H : take_digits _ _ _ = _ |- _ => apply take_digits_length in H
           end;
    simpl in *; lia.
Qed.

Lemma strip_prefix_length (p s rest : jsstring) :
  strip_prefix p s = Some rest → (length s = length p + length rest)%nat.
Proof.
  revert s. induction p as [|a p IH]; intros [|b s]; simpl; try done.
  - by intros [= <-].
  - by intros [= <-].
  - destruct (a =? b)%N; [|done]. intros H%IH. lia.
Qed.

Lemma parse_value_step (fuel : nat) (s : jsstring) :
  parse_value (S fuel) s =
  match skip_ws s with
  | [] => None
  | c :: r =>
      if (c =? Ch.quote)%N then
        '(str, rest) ← parse_string_body r; Some (JString str, rest)
      else if (c =? Ch.lbracket)%N then
        match skip_ws r with
        | c' :: r' =>
            if (c' =? Ch.rbracket)%N then Some (JArray [], r')
            else '(l, rest) ← parse_elements fuel r; Some (JArray l, rest)
        | [] => None
        end
      else if (c =? Ch.lbrace)%N then
        match skip_ws r with
        | c' :: r' =>
            if (c' =? Ch.rbrace)%N then Some (JObject [], r')
            else '(l, rest) ← parse_members fuel r;
                 Some (JObject (foldl set_property [] l), rest)
        | [] => None
        end
      else
        match strip_prefix (js "true") (c :: r),
              strip_prefix (js "false") (c :: r),
              strip_prefix (js "null") (c :: r) with
        | Some rest, _, _ => Some (JBool true, rest)
        | _, Some rest, _ => Some (JBool false, rest)
        | _, _, Some rest => Some (JNull, rest)
        | None, None, None =>
            '(n, rest) ← parse_number (c :: r); Some (JNumber n, rest)
        end
  end.
Proof. reflexivity. Qed.

Lemma parse_members_step_ws (fuel : nat) (s : jsstring) :
  parse_members (S fuel) s =
  match skip_ws s with
  | c :: r =>
      if (c =? Ch.quote)%N then
        '(k, r1) ← parse_string_body r;
        match skip_ws r1 with
        | c1 :: r2 =>
            if (c1 =? Ch.colon)%N then
              '(v, r3) ← parse_value fuel r2;
              match skip_ws r3 with
              | c3 :: r4 =>
                  if (c3 =? Ch.comma)%N then
                    '(l, rest) ← parse_members fuel r4; Some ((k, v) :: l, rest)
                  else if (c3 =? Ch.rbrace)%N then Some ([(k, v)], r4)
                  else None
              | [] => None
              end
            else None
        | [] => None
        end
      else None
  | [] => None
  end.
Proof. reflexivity. Qed.

(** A successful parse consumes input, and succeeds again with any fuel
    above twice the number of code units it consumed. *)
Lemma parse_fuel_bound (fuel : nat) :
  (∀ s v rest, parse_value fuel s = Some (v, rest) →
     (length rest < length s)%nat
     ∧ ∀ fuel', (2 * (length s - length rest) - 1 ≤ fuel')%nat →
                parse_value fuel' s = Some (v, rest))
  ∧ (∀ s l rest, parse_elements fuel s = Some (l, rest) →
     (length rest + 1 < length s)%nat
     ∧ ∀ fuel', (2 * (length s - length rest) - 2 ≤ fuel')%nat →
                parse_elements fuel' s = Some (l, rest))
  ∧ (∀ s l rest, parse_members fuel s = Some (l, rest) →
     (length rest + 1 < length s)%nat
     ∧ ∀ fuel', (2 * (length s - length rest) - 2 ≤ fuel')%nat →
                parse_members fuel' s = Some (l, rest)).
Proof.
  induction fuel as [|fuel (IHv & IHe & IHm)]; [done|].
  split; [|split].
  - intros s v rest H. rewrite parse_value_step in H.
    pose proof (skip_ws_length s) as Hws.
    destruct (skip_ws s) as [|c r] eqn:Hs; [done|]. simpl in Hws.
    destruct (c =? Ch.quote)%N eqn:Hq.
    { destruct (parse_string_body r) as [[str rest']|] eqn:Hstr; [|done].
      simpl in H. injection H as <- <-.
      apply parse_string_body_length in Hstr as Hlen.
      split; [lia|]. intros [|fuel'] Hf; [lia|].
      by rewrite parse_value_step, Hs, Hq, Hstr. }
    destruct (c =? Ch.lbracket)%N eqn:Hb.
    { pose proof (skip_ws_length r) as Hws'.
      destruct (skip_ws r) as [|c' r'] eqn:Hr; [done|]. simpl in Hws'.
      destruct (c' =? Ch.rbracket)%N eqn:Hc'.
      - injection H as <- <-. split; [lia|]. intros [|fuel'] Hf; [lia|].
        by rewrite parse_value_step, Hs, Hq, Hb, Hr, Hc'.
      - destruct (parse_elements fuel r) as [[l rest']|] eqn:He; [|done].
        simpl in H. injection H as <- <-.
        apply IHe in He as [Hlen Hfuel].
        split; [lia|]. intros [|fuel'] Hf; [lia|].
        rewrite parse_value_step, Hs, Hq, Hb, Hr, Hc', Hfuel by lia. done. }
    destruct (c =? Ch.lbrace)%N eqn:Hbr.
    { pose proof (skip_ws_length r) as Hws'.
      destruct (skip_ws r) as [|c' r'] eqn:Hr; [done|]. simpl in Hws'.
      destruct (c' =? Ch.rbrace)%N eqn:Hc'.
      - injection H as <- <-. split; [lia|]. intros [|fuel'] Hf; [lia|].
        by rewrite parse_value_step, Hs, Hq, Hb, Hbr, Hr, Hc'.
      - destruct (parse_members fuel r) as [[l rest']|] eqn:Hm; [|done].
        simpl in H. injection H as <- <-.
        apply IHm in Hm as [Hlen Hfuel].
        split; [lia|]. intros [|fuel'] Hf; [lia|].
        rewrite parse_value_step, Hs, Hq, Hb, Hbr, Hr, Hc', Hfuel by lia. done. }
    assert (length rest < length (c :: r))%nat as Hlen.
    { destruct (strip_prefix (js "true") (c :: r)) eqn:Ht.
      { injection H as <- <-. apply strip_prefix_length in Ht. simpl in *. lia. }
      destruct (strip_prefix (js "false") (c :: r)) eqn:Hf.
      { injection H as <- <-. apply strip_prefix_length in Hf. simpl in *. lia. }
      destruct (strip_prefix (js "null") (c :: r)) eqn:Hn.
      { injection H as <- <-. apply strip_prefix_length in Hn. simpl in *. lia. }
      destruct (parse_number (c :: r)) as [[n rest']|] eqn:Hnum; [|done].
      simpl in H. injection H as <- <-. by apply parse_number_length in Hnum. }
    simpl in Hlen. split; [lia|]. intros [|fuel'] Hf; [lia|].
    by rewrite parse_value_step, Hs, Hq, Hb, Hbr.
  - intros s l rest H. rewrite parse_elements_step in H.
    destruct (parse_value fuel s) as [[v r]|] eqn:Hv; [|done]. simpl in H.
    apply IHv in Hv as [Hlen Hfuel].
    pose proof (skip_ws_length r) as Hws.
    destruct (skip_ws r) as [|c r'] eqn:Hr; [done|]. simpl in Hws.
    destruct (c =? Ch.comma)%N eqn:Hc.
    + destruct (parse_elements fuel r') as [[l' rest']|] eqn:He; [|done].
      simpl in H. injection H as <- <-.
      apply IHe in He as [Hlen' Hfuel'].
      split; [lia|]. intros [|fuel'] Hf; [lia|].
      rewrite parse_elements_step, Hfuel by lia. simpl.
      rewrite Hr, Hc, Hfuel' by lia. done.
    + destruct (c =? Ch.rbracket)%N eqn:Hc'; [|done]. injection H as <- <-.
      split; [lia|]. intros [|fuel'] Hf; [lia|].
      rewrite parse_elements_step, Hfuel by lia. simpl. by rewrite Hr, Hc, Hc'.
  - intros s l rest H. rewrite parse_members_step_ws in H.
    pose proof (skip_ws_length s) as Hws.
    destruct (skip_ws s) as [|c r] eqn:Hs; [done|]. simpl in Hws.
    destruct (c =? Ch.quote)%N eqn:Hq; [|done].
    destruct (parse_string_body r) as [[k r1]|] eqn:Hk; [|done]. simpl in H.
    apply parse_string_body_length in Hk as Hklen.
    pose proof (skip_ws_length r1) as Hws1.
    destruct (skip_ws r1) as [|c1 r2] eqn:Hr1; [done|]. simpl in Hws1.
    destruct (c1 =? Ch.colon)%N eqn:Hc1; [|done].
    destruct (parse_value fuel r2) as [[v r3]|] eqn:Hv; [|done]. simpl in H.
    apply IHv in Hv as [Hlen Hfuel].
    pose proof (skip_ws_length r3) as Hws3.
    destruct (skip_ws r3) as [|c3 r4] eqn:Hr3; [done|]. simpl in Hws3.
    destruct (c3 =? Ch.comma)%N eqn:Hc3.
    + destruct (parse_members fuel r4) as [[l' rest']|] eqn:Hm; [|done].
      simpl in H. injection H as <- <-.
      apply IHm in Hm as [Hlen' Hfuel'].
      split; [lia|]. intros [|fuel'] Hf; [lia|].
      rewrite parse_members_step_ws, Hs, Hq, Hk. simpl.
      rewrite Hr1, Hc1, Hfuel by lia. simpl.
      rewrite Hr3, Hc3, Hfuel' by lia. done.
    + destruct (c3 =? Ch.rbrace)%N eqn:Hc3'; [|done]. injection H as <- <-.
      split; [lia|]. intros [|fuel'] Hf; [lia|].
      rewrite parse_members_step_ws, Hs, Hq, Hk. simpl.
      rewrite Hr1, Hc1, Hfuel by lia. simpl. by rewrite Hr3, Hc3, Hc3'.
Qed.

(** The fuel [JSON.parse] gives itself is enough: a text that parses with
    some fuel parses with it, to the same value. *)
Lemma JSON_parse_fuel (fuel : nat) (text : jsstring) (v : jsvalue) (rest : jsstring) :
  parse_value fuel text = Some (v, rest) → skip_ws rest = [] →
  JSON_parse text = Some v.
Proof.
  intros H Hrest. destruct (parse_fuel_bound fuel) as (Hv & _ & _).
  apply Hv in H as [Hlen H]. unfold JSON_parse.
  rewrite H by lia. simpl. by rewrite Hrest.
Qed.
End Fuel.

(** * Further properties *)

(** ** sst.config.ts: [app] *)

(** X1: the app is protected exactly when its stage is "production", and
    exactly then its resources are retained on removal; for every other
    stage, however close ("Production", "production "), it is unprotected
    and its resources are removed. *)
Theorem app_protect_iff_production (i : SstApp.input) :
  (SstApp.protect (SstApp.app i) = true ↔ SstApp.stage i = js "production")
  ∧ (SstApp.removal (SstApp.app i) = js "retain" ↔ SstApp.stage i = js "production")
  ∧ (SstApp.removal (SstApp.app i) = js "remove" ↔ SstApp.stage i ≠ js "production")
  ∧ (SstApp.protect (SstApp.app i) = true
     ↔ SstApp.removal (SstApp.app i) = js "retain").
Proof.
  unfold SstApp.app. simpl.
  destruct (bool_decide_reflect (SstApp.stage i = js "production")) as [H|H];
    repeat split; intros; try done.
Qed.

(** ** split and trim, continued *)

Lemma trim_start_app_spaces (a s : jsstring) :
  Forall (λ c, is_js_space c = true) a → trim_start (a ++ s) = trim_start s.
Proof. induction 1 as [|c a Hc _ IH]; [done|]. simpl. by rewrite Hc. Qed.

Lemma trim_end_app_spaces (s b : jsstring) :
  Forall (λ c, is_js_space c = true) b → trim_end (s ++ b) = trim_end s.
Proof.
  intros Hb. unfold trim_end. rewrite reverse_app, trim_start_app_spaces; [done|].
  by apply Forall_reverse.
Qed.

Lemma trim_start_length (s : jsstring) : (length (trim_start s) ≤ length s)%nat.
Proof.
  destruct (trim_start_spaces s) as (a & Ha & _).
  rewrite Ha at 2. rewrite length_app. lia.
Qed.

Lemma trim_end_length (s : jsstring) : (length (trim_end s) ≤ length s)%nat.
Proof.
  destruct (trim_end_spaces s) as (b & Hb & _).
  rewrite Hb at 2. rewrite length_app. lia.
Qed.

(** A string that trimming leaves alone is left alone by both halves. *)
Lemma trim_fixed (s : jsstring) :
  trim s = s → trim_start s = s ∧ trim_end s = s.
Proof.
  unfold trim. intros H.
  destruct (trim_start_spaces s) as (a & Ha & _).
  pose proof (trim_end_length (trim_start s)) as H1.
  pose proof (trim_start_length s) as H2.
  assert (length a = 0)%nat as Hlen.
  { apply (f_equal length) in Ha. rewrite length_app in Ha.
    rewrite H in H1. lia. }
  destruct a; [|done]. simpl in Ha. rewrite <- Ha in H. by rewrite <- Ha.
Qed.

Lemma trim_padded (a e b : jsstring) :
  Forall (λ c, is_js_space c = true) a →
  Forall (λ c, is_js_space c = true) b →
  trim e = e → trim (a ++ e ++ b) = e.
Proof.
  intros Ha Hb [Hs He]%trim_fixed. unfold trim.
  rewrite trim_start_app_spaces by done.
  destruct e as [|c e].
  - simpl. rewrite <- (app_nil_r b), trim_start_app_spaces by done.
    reflexivity.
  - rewrite (trim_start_fixed ((c :: e) ++ b)).
    + by rewrite trim_end_app_spaces.
    + simpl. intros c' [= <-]. apply (trim_start_head (c :: e)).
      by rewrite Hs.
Qed.

Lemma split_comma_piece (p : jsstring) : Ch.comma ∉ p → split_comma p = [p].
Proof.
  induction p as [|c p IH]; [done|]. intros Hc. simpl.
  destruct (N.eqb_spec c Ch.comma) as [-> | Hne].
  - exfalso. apply Hc. left.
  - rewrite IH; [done|]. intros Hin. apply Hc. by right.
Qed.

Lemma split_comma_cons (p r : jsstring) :
  Ch.comma ∉ p → split_comma (p ++ Ch.comma :: r) = p :: split_comma r.
Proof.
  induction p as [|c p IH]; intros Hc; [reflexivity|]. simpl.
  destruct (N.eqb_spec c Ch.comma) as [-> | Hne].
  - exfalso. apply Hc. left.
  - rewrite IH; [done|]. intros Hin. apply Hc. by right.
Qed.

Lemma split_comma_join (pieces : list jsstring) :
  pieces ≠ [] → Forall (λ p, Ch.comma ∉ p) pieces →
  split_comma (join [Ch.comma] pieces) = pieces.
Proof.
  induction pieces as [|p l IH]; [done|]. intros _ Hall.
  apply Forall_cons in Hall as [Hp Hall].
  destruct l as [|q l]; [by apply split_comma_piece|].
  change (join [Ch.comma] (p :: q :: l))
    with (p ++ Ch.comma :: join [Ch.comma] (q :: l)).
  rewrite split_comma_cons by done. by rewrite IH.
Qed.

Lemma join_split_comma (s : jsstring) : join [Ch.comma] (split_comma s) = s.
Proof.
  induction s as [|c s IH]; [done|]. simpl.
  pose proof (split_comma_nonempty s) as Hne.
  destruct (c =? Ch.comma)%N eqn:Hc.
  - apply N.eqb_eq in Hc as ->.
    destruct (split_comma s) as [|h t]; [done|].
    change (join [Ch.comma] ([] :: h :: t)) with (Ch.comma :: join [Ch.comma] (h :: t)).
    by rewrite IH.
  - destruct (split_comma s) as [|h t]; [done|].
    destruct t as [|h' t]; simpl in *; by rewrite <- IH.
Qed.

Lemma split_comma_length (s : jsstring) :
  length (split_comma s) = S (commas s).
Proof.
  unfold commas. induction s as [|c s IH]; [done|]. simpl.
  rewrite filter_cons. destruct (N.eqb_spec c Ch.comma) as [-> | Hne].
  - rewrite decide_True by done. simpl. by rewrite IH.
  - rewrite decide_False by done.
    destruct (split_comma s); simpl in *; [done | by rewrite <- IH].
Qed.

(** X2: [trim] removes white space from both ends of a string and nothing
    else: the string is white space, then its trimmed form, then white
    space, and the trimmed form neither starts nor ends with white space. *)
Theorem trim_shape (s : jsstring) :
  ∃ a b, s = a ++ trim s ++ b
         ∧ Forall (λ c, is_js_space c = true) a
         ∧ Forall (λ c, is_js_space c = true) b
         ∧ (∀ c, head (trim s) = Some c → is_js_space c = false)
         ∧ (∀ c, last (trim s) = Some c → is_js_space c = false).
Proof.
  destruct (trim_start_spaces s) as (a & Ha & Hsa).
  destruct (trim_end_spaces (trim_start s)) as (b & Hb & Hsb).
  exists a, b. unfold trim. split; [by rewrite <- Hb|]. split; [done|].
  split; [done|]. split.
  - intros c Hc. apply (trim_start_head s). rewrite Hb.
    destruct (trim_end (trim_start s)); [done | exact Hc].
  - intros c Hc. unfold trim_end in Hc. rewrite last_reverse in Hc.
    by apply trim_start_head in Hc.
Qed.

(** X3: splitting on commas and joining with commas undo each other: the
    pieces of a string joined give the string back, and a non-empty list of
    comma-free pieces, joined and split, gives the pieces back; the number
    of pieces is the number of commas plus one. *)
Theorem split_comma_inverse (s : jsstring) (pieces : list jsstring) :
  pieces ≠ [] → Forall (λ p, Ch.comma ∉ p) pieces →
  join [Ch.comma] (split_comma s) = s
  ∧ length (split_comma s) = S (commas s)
  ∧ split_comma (join [Ch.comma] pieces) = pieces.
Proof.
  intros Hne Hall. split; [apply join_split_comma|].
  split; [apply split_comma_length | by apply split_comma_join].
Qed.

Lemma split_comma_inverse_witness :
  [js "o-aaa111"; []; js " o-bbb222"] ≠ []
  ∧ split_comma (js "o-aaa111,, o-bbb222") = [js "o-aaa111"; []; js " o-bbb222"]
  ∧ join [Ch.comma] (split_comma (js "o-aaa111,, o-bbb222"))
    = js "o-aaa111,, o-bbb222".
Proof.
  split; [discriminate|].
  destruct (split_comma_inverse (js "o-aaa111,, o-bbb222")
              [js "o-aaa111"; []; js " o-bbb222"]) as (H1 & _ & H3).
  - discriminate.
  - repeat constructor; vm_compute; intros H; repeat
      (apply elem_of_cons in H as [H | H]; [discriminate|]);
      by apply not_elem_of_nil in H.
  - split; [exact H3 | exact H1].
Defined.

(** ** sst.config.ts: the inline string and the file *)

Lemma padded_no_comma (a e b : jsstring) :
  Forall (λ c, is_js_space c = true) a →
  Forall (λ c, is_js_space c = true) b →
  Ch.comma ∉ e → Ch.comma ∉ a ++ e ++ b.
Proof.
  intros Ha Hb He. rewrite !elem_of_app. rewrite Forall_forall in Ha, Hb.
  intros [H | [H | H]]; [by apply Ha in H | done | by apply Hb in H].
Qed.

Lemma inline_accounts (w : SstConfig.platform) (s : jsstring) :
  truthy (SstConfig.env w !! FILE) = false →
  SstConfig.env w !! INLINE = Some s → s ≠ [] →
  SstConfig.allowedAccounts w = Ok (JString ∘ trim <$> split_comma s).
Proof.
  intros Hf Hs Hne. rewrite (allowedAccounts_no_file w Hf), Hs.
  destruct s; [done | reflexivity].
Qed.

(** X4: without the file variable, an inline string of entries separated by
    commas, each with any white space around it, gives the allow-list of
    the entries themselves, in their order and with their repetitions. *)
Theorem inline_entries (w : SstConfig.platform) (entries padded : list jsstring) :
  truthy (SstConfig.env w !! FILE) = false →
  SstConfig.env w !! INLINE = Some (join [Ch.comma] padded) →
  join [Ch.comma] padded ≠ [] →
  Forall2 (λ e p, ∃ a b, p = a ++ e ++ b
                         ∧ Forall (λ c, is_js_space c = true) a
                         ∧ Forall (λ c, is_js_space c = true) b
                         ∧ trim e = e ∧ Ch.comma ∉ e) entries padded →
  SstConfig.allowedAccounts w = Ok (JString <$> entries).
Proof.
  intros Hf Hs Hne Hall. rewrite (inline_accounts w _ Hf Hs Hne).
  rewrite split_comma_join.
  - f_equal. clear Hs Hne.
    induction Hall as [|e p es ps (a & b & -> & Ha & Hb & He & _) _ IH]; [done|].
    rewrite !fmap_cons, IH. simpl. by rewrite trim_padded.
  - intros ->. by apply Hne.
  - clear Hs Hne. induction Hall as [|e p es ps (a & b & -> & Ha & Hb & _ & Hc) _ IH];
      constructor; [by apply padded_no_comma | done].
Qed.

Lemma inline_entries_witness :
  SstConfig.allowedAccounts
    (provision None (Some (js " o-aaa111 ,o-bbb222,o-aaa111")) ∅)
  = Ok [JString (js "o-aaa111"); JString (js "o-bbb222"); JString (js "o-aaa111")].
Proof.
  apply (inline_entries (provision None (Some (js " o-aaa111 ,o-bbb222,o-aaa111")) ∅)
           [js "o-aaa111"; js "o-bbb222"; js "o-aaa111"]
           [js " o-aaa111 "; js "o-bbb222"; js "o-aaa111"]).
  - reflexivity.
  - reflexivity.
  - discriminate.
  - assert (Ch.comma ∉ js "o-aaa111") as H1.
    { vm_compute. intros H.
      repeat (apply elem_of_cons in H as [H | H]; [discriminate|]).
      by apply not_elem_of_nil in H. }
    assert (Ch.comma ∉ js "o-bbb222") as H2.
    { vm_compute. intros H.
      repeat (apply elem_of_cons in H as [H | H]; [discriminate|]).
      by apply not_elem_of_nil in H. }
    constructor; [| constructor; [| constructor; [| constructor]]].
    + exists (js " "), (js " "). repeat split; try done; repeat constructor.
    + exists [], []. repeat split; try done; by rewrite app_nil_r.
    + exists [], []. repeat split; try done; by rewrite app_nil_r.
Defined.

(** X5: without the file variable, every non-empty inline string builds a
    policy, with one identifier per comma plus one: also a string of commas
    or of white space only, whose identifiers are empty. *)
Theorem inline_always_restricts (w : SstConfig.platform) (s : jsstring) :
  truthy (SstConfig.env w !! FILE) = false →
  SstConfig.env w !! INLINE = Some s → s ≠ [] →
  ∃ p, run_policy w = Some p
       ∧ identifiers p = JString ∘ trim <$> split_comma s
       ∧ length (identifiers p) = S (commas s).
Proof.
  intros Hf Hs Hne. unfold run_policy.
  rewrite (inline_accounts w s Hf Hs Hne).
  pose proof (split_comma_nonempty s) as Hsplit.
  pose proof (split_comma_length s) as Hlen.
  destruct (split_comma s) as [|h t] eqn:Hsp; [done|].
  eexists. split; [reflexivity|]. unfold identifiers. simpl.
  rewrite app_nil_r. split; [done|]. simpl. rewrite length_fmap.
  simpl in Hlen. lia.
Qed.

Lemma inline_always_restricts_witness :
  ∃ p, run_policy (provision None (Some (js " ,")) ∅) = Some p
       ∧ identifiers p = [JString []; JString []].
Proof.
  destruct (inline_always_restricts (provision None (Some (js " ,")) ∅) (js " ,"))
    as (p & Hp & Hid & _).
  - reflexivity.
  - reflexivity.
  - discriminate.
  - exists p. split; [exact Hp|]. rewrite Hid. vm_compute. reflexivity.
Defined.

(** X6: the allow-list depends on nothing but the two variables and the
    file the file variable names: other variables and other files do not
    change it. *)
Theorem allow_list_frame (w w' : SstConfig.platform) :
  SstConfig.env w !! FILE = SstConfig.env w' !! FILE →
  SstConfig.env w !! INLINE = SstConfig.env w' !! INLINE →
  (∀ path, SstConfig.env w !! FILE = Some path →
           SstConfig.files w !! path = SstConfig.files w' !! path) →
  SstConfig.allowedAccounts w = SstConfig.allowedAccounts w'.
Proof.
  intros Hfile Hinl Hfs. destruct (truthy (SstConfig.env w !! FILE)) eqn:Ht.
  - apply truthy_Some in Ht as (path & Hp & Hne).
    rewrite (allowedAccounts_file w path Hp Hne).
    rewrite (allowedAccounts_file w' path) by congruence.
    unfold SstConfig.read_accounts_file, SstConfig.readFileSync.
    by rewrite (Hfs path Hp).
  - rewrite (allowedAccounts_no_file w Ht).
    rewrite (allowedAccounts_no_file w') by congruence.
    by rewrite Hinl.
Qed.

Lemma allow_list_frame_witness :
  SstConfig.allowedAccounts both_sources
  = SstConfig.allowedAccounts
      (with_files
         (with_env both_sources
            (<["AWS_PROFILE"%string := js "dev-sandbox"]> (SstConfig.env both_sources)))
         (<[js "other.json" := js "{}"]> (SstConfig.files both_sources))).
Proof.
  apply allow_list_frame.
  - reflexivity.
  - reflexivity.
  - intros path [= <-]. reflexivity.
Defined.

Lemma file_accounts_of_strings (w : SstConfig.platform)
    (path text : jsstring) (ids : list jsstring) :
  SstConfig.env w !! FILE = Some path → path ≠ [] →
  JSON_stringify (JArray (JString <$> ids)) = Some text →
  SstConfig.files w !! path = Some text →
  SstConfig.allowedAccounts w = Ok (JString <$> ids).
Proof.
  intros Henv Hne Htext Hfile.
  destruct (JSON_parse_stringify (JArray (JString <$> ids))) as (t & Ht & Hparse).
  { rewrite plain_array. apply forallb_forall.
    by intros x (s & -> & _)%list_elem_of_In%list_elem_of_fmap. }
  rewrite Htext in Ht. injection Ht as <-.
  rewrite (allowedAccounts_file w path Henv Hne).
  by apply (read_accounts_file_array w path text).
Qed.

(** X7: a file that holds the text [JSON.stringify] writes for an array of
    strings is read back as the allow-list of exactly these strings,
    whatever code units they contain; when there is at least one, they are
    the identifiers of the policy the run builds. *)
Theorem file_written_by_stringify (w : SstConfig.platform)
    (path text : jsstring) (ids : list jsstring) :
  SstConfig.env w !! FILE = Some path → path ≠ [] →
  JSON_stringify (JArray (JString <$> ids)) = Some text →
  SstConfig.files w !! path = Some text →
  SstConfig.allowedAccounts w = Ok (JString <$> ids)
  ∧ (ids ≠ [] → ∃ p, run_policy w = Some p ∧ identifiers p = JString <$> ids).
Proof.
  intros Henv Hne Htext Hfile.
  pose proof (file_accounts_of_strings w path text ids Henv Hne Htext Hfile) as Ha.
  split; [exact Ha|]. intros Hids. unfold run_policy. rewrite Ha.
  destruct ids as [|id ids]; [done|].
  eexists. split; [reflexivity|]. unfold identifiers. simpl.
  by rewrite app_nil_r.
Qed.

Lemma file_written_by_stringify_witness :
  SstConfig.allowedAccounts
    (file_platform accounts_json (json_text "['111111111111','a\\b']") ∅ [])
  = Ok [JString (js "111111111111"); JString (js "a\b")].
Proof.
  apply (file_written_by_stringify _ accounts_json
           (json_text "['111111111111','a\\b']") [js "111111111111"; js "a\b"]).
  - reflexivity.
  - discriminate.
  - vm_compute. reflexivity.
  - reflexivity.
Defined.

Lemma policy_None (accounts : list jsvalue) :
  SstConfig.policy accounts = None ↔ accounts = [].
Proof. unfold SstConfig.policy. by destruct accounts. Qed.

Lemma run_with_policy (w : SstConfig.platform) (accounts : list jsvalue)
    (p : SstConfig.ResourcePolicy) :
  SstConfig.allowedAccounts w = Ok accounts →
  SstConfig.policy accounts = Some p →
  ∃ text,
    JSON_stringify (SstConfig.ResourcePolicy_value p) = Some text
    ∧ gateway_policy (SstConfig.run w) = Some (JString text)
    ∧ console_of (SstConfig.run w) = [policy_added_line text (SstConfig.api_name w)].
Proof.
  intros Ha Hp. unfold SstConfig.run, gateway_policy. rewrite Ha, Hp.
  unfold SstConfig.transform_api.
  destruct (JSON_stringify (SstConfig.ResourcePolicy_value p)) as [text|] eqn:Ht;
    [|done].
  exists text. split; [done|]. simpl. by rewrite lookup_insert_eq.
Qed.

Lemma join_comma_empty (pieces : list jsstring) :
  join [Ch.comma] pieces = [] → pieces = [] ∨ pieces = [[]].
Proof.
  destruct pieces as [|p [|q l]]; [by left | |].
  - simpl. intros ->. by right.
  - change (join [Ch.comma] (p :: q :: l))
      with (p ++ Ch.comma :: join [Ch.comma] (q :: l)).
    by destruct p.
Qed.

Lemma console_of_run (w : SstConfig.platform) (accounts : list jsvalue) :
  SstConfig.allowedAccounts w = Ok accounts →
  console_of (SstConfig.run w) = [] ↔ accounts = [].
Proof.
  intros Ha. destruct (SstConfig.policy accounts) as [p|] eqn:Hp.
  - destruct (run_with_policy w accounts p Ha Hp) as (text & _ & _ & ->).
    split; [done|]. intros ->. discriminate.
  - apply policy_None in Hp as ->. unfold SstConfig.run. by rewrite Ha.
Qed.

(** X8: the two sources agree, but for one list: for identifiers without
    commas and without white space at their ends, the file that holds their
    JSON array and the inline string that joins them with commas give the
    same run, unless the list is the single empty identifier. Its inline
    string is empty and counts as no source, while its file attaches a
    policy. *)
Theorem sources_agree (ids : list jsstring) (path text : jsstring)
    (args : gmap string jsvalue) (name : jsstring) :
  path ≠ [] →
  Forall (λ e, trim e = e ∧ Ch.comma ∉ e) ids →
  JSON_stringify (JArray (JString <$> ids)) = Some text →
  (SstConfig.run (file_platform path text args name)
   = SstConfig.run (inline_platform (join [Ch.comma] ids) args name)
   ↔ ids ≠ [[]])
  ∧ (ids = [[]] →
     run_policy (inline_platform (join [Ch.comma] ids) args name) = None
     ∧ ∃ p, run_policy (file_platform path text args name) = Some p
            ∧ identifiers p = [JString []]).
Proof.
  intros Hpath Hids Htext.
  assert (SstConfig.allowedAccounts (file_platform path text args name)
          = Ok (JString <$> ids)) as Hfile.
  { apply (file_accounts_of_strings _ path text ids); try done;
      simpl; by rewrite lookup_singleton_eq. }
  assert (truthy (SstConfig.env (inline_platform (join [Ch.comma] ids) args name)
                    !! FILE) = false) as Hnofile by done.
  assert (join [Ch.comma] ids = [] →
          SstConfig.allowedAccounts (inline_platform (join [Ch.comma] ids) args name)
          = Ok []) as Hempty.
  { intros Hj. rewrite (allowedAccounts_no_file _ Hnofile). simpl.
    rewrite lookup_singleton_eq. by rewrite Hj. }
  split; [split|].
  - intros Hrun ->. specialize (Hempty eq_refl).
    apply (f_equal console_of) in Hrun.
    rewrite (proj2 (console_of_run _ [] Hempty) eq_refl) in Hrun.
    by apply (console_of_run _ _ Hfile) in Hrun.
  - intros Hne. apply run_depends_on_accounts; try reflexivity. rewrite Hfile.
    destruct (decide (join [Ch.comma] ids = [])) as [Hj | Hj].
    + rewrite (Hempty Hj). by destruct (join_comma_empty ids Hj) as [-> | ->].
    + assert (split_comma (join [Ch.comma] ids) = ids) as Hsplit.
      { apply split_comma_join; [by intros -> |].
        eapply Forall_impl; [exact Hids|]. by intros e [_ ?]. }
      rewrite (inline_accounts _ (join [Ch.comma] ids)); [| done | | done].
      * rewrite Hsplit. f_equal. clear Htext Hfile Hempty Hne Hj Hsplit Hnofile.
        induction Hids as [|e l [He _] _ IH]; [done|].
        rewrite !fmap_cons, IH. simpl. by rewrite He.
      * simpl. by rewrite lookup_singleton_eq.
  - intros ->. unfold run_policy. rewrite Hfile, (Hempty eq_refl).
    split; [done|]. by eexists.
Qed.

Lemma sources_agree_witness :
  SstConfig.run (file_platform accounts_json
                   (json_text "['o-aaa111','o-bbb222']") ∅ (js "MyApiApi"))
  = SstConfig.run (inline_platform (js "o-aaa111,o-bbb222") ∅ (js "MyApiApi")).
Proof.
  destruct (sources_agree [js "o-aaa111"; js "o-bbb222"] accounts_json
              (json_text "['o-aaa111','o-bbb222']") ∅ (js "MyApiApi"))
    as [[_ H] _].
  - discriminate.
  - repeat constructor; try (vm_compute; reflexivity);
      vm_compute; intros H;
      repeat (apply elem_of_cons in H as [H | H]; [discriminate|]);
      by apply not_elem_of_nil in H.
  - vm_compute. reflexivity.
  - apply H. discriminate.
Defined.

(** ** sst.config.ts: what a run attaches and logs *)

(** X9: when the platform's arguments carry no policy of their own, the
    gateway a run declares has a policy exactly when the allow-list was
    read and is not empty; a run that exits declares no gateway at all. *)
Theorem policy_attached_iff (w : SstConfig.platform) :
  SstConfig.api_args w !! "policy"%string = None →
  (is_Some (gateway_policy (SstConfig.run w))
   ↔ ∃ accounts, SstConfig.allowedAccounts w = Ok accounts ∧ accounts ≠ [])
  ∧ (∀ code d c, SstConfig.run w = SstConfig.Exited code d c →
       ∀ name args, SstConfig.ApiGatewayV1 name args ∉ d).
Proof.
  intros Hargs. split.
  - destruct (SstConfig.allowedAccounts w) as [accounts|e] eqn:Ha.
    + destruct (SstConfig.policy accounts) as [p|] eqn:Hp.
      * destruct (run_with_policy w accounts p Ha Hp) as (text & _ & -> & _).
        split; [|by eexists]. intros _. exists accounts. split; [done|].
        intros ->. discriminate.
      * apply policy_None in Hp as ->. unfold SstConfig.run, gateway_policy.
        rewrite Ha. simpl. rewrite Hargs. split.
        -- by intros [? ?].
        -- by intros (accounts & [= <-] & ?).
    + unfold SstConfig.run, gateway_policy. rewrite Ha. simpl. split.
      * by intros [? ?].
      * by intros (accounts & [=] & _).
  - intros code d c. unfold SstConfig.run.
    destruct (SstConfig.allowedAccounts w) as [accounts|e].
    + by destruct (SstConfig.transform_api _ _ _) as [[? ?] ?].
    + intros [= <- <- <-] name args Hin.
      repeat (apply elem_of_cons in Hin as [Hin | Hin]; [discriminate|]).
      by apply not_elem_of_nil in Hin.
Qed.

Lemma policy_attached_iff_witness :
  SstConfig.api_args both_sources !! "policy"%string = None
  ∧ is_Some (gateway_policy (SstConfig.run both_sources)).
Proof.
  split; [reflexivity|].
  destruct (policy_attached_iff both_sources eq_refl) as [[_ H] _].
  apply H. exists [JString (js "o-file1")]. split; [|discriminate].
  vm_compute. reflexivity.
Defined.

(** X10: a run that builds a policy logs one line, which quotes the very
    text it stored in the gateway's [policy] and the name the platform gave
    the API; a run without allow-list logs nothing; a run that exits logs
    the error it caught and nothing else. *)
Theorem run_console (w : SstConfig.platform) :
  match SstConfig.allowedAccounts w with
  | Ok [] => console_of (SstConfig.run w) = []
  | Ok (_ :: _) =>
      ∃ text, gateway_policy (SstConfig.run w) = Some (JString text)
              ∧ console_of (SstConfig.run w)
                = [policy_added_line text (SstConfig.api_name w)]
  | Throw e => console_of (SstConfig.run w) = [SstConfig.console_error_reading e]
  end.
Proof.
  destruct (SstConfig.allowedAccounts w) as [[|a l]|e] eqn:Ha.
  - unfold SstConfig.run. by rewrite Ha.
  - destruct (run_with_policy w (a :: l) _ Ha eq_refl) as (text & _ & Hg & Hc).
    by exists text.
  - unfold SstConfig.run. by rewrite Ha.
Qed.

(** The line logged for one identifier. *)
Example run_console_example :
  console_of (SstConfig.run (inline_platform (js "o-aaa111") ∅ (js "MyApiApi")))
  = [SstConfig.console_log (json_text
      "Resource policy '{'Version':'2012-10-17','Statement':[{'Sid':'AllowAccessForAllowedAccounts','Effect':'Allow','Principal':'*','Action':'execute-api:Invoke','Resource':'*','Condition':{'ForAnyValue:StringEquals':{'aws:PrincipalOrgID':['o-aaa111']}}}]}' added to API 'MyApiApi'.")].
Proof. vm_compute. reflexivity. Qed.

(** X11: the transform writes the same [policy] whatever the arguments held
    before, and applying it again changes nothing more. *)
Theorem transform_api_idempotent (p : SstConfig.ResourcePolicy)
    (args args' : gmap string jsvalue) (name name' : jsstring) :
  let once := (SstConfig.transform_api (Some p) args name).1.1 in
  (SstConfig.transform_api (Some p) once name').1.1 = once
  ∧ once !! "policy"%string
    = (SstConfig.transform_api (Some p) args' name').1.1 !! "policy"%string.
Proof.
  simpl. split; [apply insert_insert_eq|]. by rewrite !lookup_insert_eq.
Qed.

(** ** sst.config.ts: the text of the policy *)

Lemma join_snoc (sep m : jsstring) (l : list jsstring) :
  l ≠ [] → join sep (l ++ [m]) = join sep l ++ sep ++ m.
Proof.
  induction l as [|p l IH]; [done|]. intros _.
  destruct l as [|q l]; [reflexivity|].
  change (join sep ((p :: q :: l) ++ [m]))
    with (p ++ sep ++ join sep ((q :: l) ++ [m])).
  rewrite IH by done.
  change (join sep (p :: q :: l)) with (p ++ sep ++ join sep (q :: l)).
  by rewrite <- !app_assoc.
Qed.

(** The text of an object whose last member has the text [t]. *)
Lemma Serialize_object_last (front : list (jsstring * jsvalue))
    (k : jsstring) (x : jsvalue) (t : jsstring) :
  SerializeJSONProperty x = Some t →
  SerializeJSONProperty (JObject (front ++ [(k, x)])) =
  Some ([Ch.lbrace]
        ++ match omap member_text front with
           | [] => []
           | m :: ms => join [Ch.comma] (m :: ms) ++ [Ch.comma]
           end
        ++ QuoteJSONString k ++ [Ch.colon] ++ t ++ [Ch.rbrace]).
Proof.
  intros H. rewrite Serialize_object, omap_app. f_equal. f_equal.
  assert (omap member_text [(k, x)] = [QuoteJSONString k ++ [Ch.colon] ++ t]) as ->.
  { simpl. unfold member_text at 1. simpl. by rewrite H. }
  destruct (omap member_text front) as [|m ms].
  - simpl. by rewrite <- !app_assoc.
  - rewrite join_snoc by done. by rewrite <- !app_assoc.
Qed.

Lemma policy_text_around (x : jsvalue) (t : jsstring) :
  SerializeJSONProperty x = Some t →
  SerializeJSONProperty
    (JObject [
       (js "Version", JString (js "2012-10-17"));
       (js "Statement", JArray [
          JObject [
            (js "Sid", JString (js "AllowAccessForAllowedAccounts"));
            (js "Effect", JString (js "Allow"));
            (js "Principal", JString (js "*"));
            (js "Action", JString (js "execute-api:Invoke"));
            (js "Resource", JString (js "*"));
            (js "Condition", JObject [
               (js "ForAnyValue:StringEquals", JObject [
                  (js "aws:PrincipalOrgID", x)])])]])])
  = Some (policy_text_before ++ t ++ policy_text_after).
Proof.
  intros H.
  pose proof (Serialize_object_last [] (js "aws:PrincipalOrgID") x t H) as H1.
  pose proof (Serialize_object_last [] (js "ForAnyValue:StringEquals") _ _ H1) as H2.
  pose proof (Serialize_object_last
                [ (js "Sid", JString (js "AllowAccessForAllowedAccounts"));
                  (js "Effect", JString (js "Allow"));
                  (js "Principal", JString (js "*"));
                  (js "Action", JString (js "execute-api:Invoke"));
                  (js "Resource", JString (js "*")) ]
                (js "Condition") _ _ H2) as H3.
  match type of H3 with
  | SerializeJSONProperty ?o = Some ?t3 =>
      assert (SerializeJSONProperty (JArray [o])
              = Some ([Ch.lbracket] ++ t3 ++ [Ch.rbracket])) as H4
        by (rewrite Serialize_array;
            change (element_text <$> [o]) with [element_text o];
            unfold element_text; rewrite H3; reflexivity)
  end.
  pose proof (Serialize_object_last [(js "Version", JString (js "2012-10-17"))]
                (js "Statement") _ _ H4) as H5.
  etransitivity; [exact H5|]. f_equal.
  rewrite <- ?app_assoc. vm_compute. reflexivity.
Qed.

Lemma policy_value_shape (accounts : list jsvalue) (p : SstConfig.ResourcePolicy) :
  SstConfig.policy accounts = Some p →
  SstConfig.ResourcePolicy_value p =
  JObject [
    (js "Version", JString (js "2012-10-17"));
    (js "Statement", JArray [
       JObject [
         (js "Sid", JString (js "AllowAccessForAllowedAccounts"));
         (js "Effect", JString (js "Allow"));
         (js "Principal", JString (js "*"));
         (js "Action", JString (js "execute-api:Invoke"));
         (js "Resource", JString (js "*"));
         (js "Condition", JObject [
            (js "ForAnyValue:StringEquals", JObject [
               (js "aws:PrincipalOrgID", JArray accounts)])])]])].
Proof.
  unfold SstConfig.policy. destruct (0 <? length accounts)%nat; [|done].
  by intros [= <-].
Qed.

(** X12: the JSON text of a policy is a fixed text around the JSON text of
    the array of its identifiers: whatever the identifiers are, they change
    nothing else of what is attached. *)
Theorem policy_text (accounts : list jsvalue) (p : SstConfig.ResourcePolicy) :
  SstConfig.policy accounts = Some p →
  ∃ t, JSON_stringify (JArray accounts) = Some t
       ∧ JSON_stringify (SstConfig.ResourcePolicy_value p)
         = Some (policy_text_before ++ t ++ policy_text_after).
Proof.
  intros Hp. rewrite (policy_value_shape accounts p Hp).
  unfold JSON_stringify.
  destruct (SerializeJSONProperty (JArray accounts)) as [t|] eqn:Ht; [|done].
  exists t. split; [done|]. by apply policy_text_around.
Qed.

Lemma policy_text_witness :
  ∃ p, SstConfig.policy [JNumber (num 111111111111); JString (js "o-aaa111")] = Some p
       ∧ JSON_stringify (SstConfig.ResourcePolicy_value p)
         = Some (policy_text_before ++ json_text "[111111111111,'o-aaa111']"
                 ++ policy_text_after).
Proof.
  eexists. split; [reflexivity|].
  destruct (policy_text [JNumber (num 111111111111); JString (js "o-aaa111")] _ eq_refl)
    as (t & Ht & Htext).
  rewrite Htext. f_equal. f_equal. f_equal.
  assert (Some t = Some (json_text "[111111111111,'o-aaa111']")) as Heq
    by (rewrite <- Ht; vm_compute; reflexivity).
  by injection Heq.
Defined.

Lemma quote_units_verbatim (s : jsstring) :
  Forall (λ c, written_verbatim c = true) s → quote_units s = s.
Proof.
  induction 1 as [|c s Hc _ IH]; [done|].
  unfold written_verbatim in Hc.
  repeat (apply andb_true_iff in Hc as [Hc ?]).
  repeat match goal with
         | H : negb _ = true |- _ => apply negb_true_iff in H
         end.
  assert (quote_units (c :: s) = quote_unit c ++ quote_units s) as ->.
  { simpl. by rewrite H0. }
  rewrite IH. unfold quote_unit.
  apply N.ltb_ge in Hc.
  repeat match goal with
         | |- context [if (c =? ?k)%N then _ else _] =>
             destruct (N.eqb_spec c k) as [-> | _];
             [ first [ discriminate | exfalso; unfold Ch.quote, Ch.backslash in *; lia ] |]
         end.
  rewrite (proj2 (N.ltb_ge c 32) Hc). by rewrite H0, H.
Qed.

(** X13: an identifier made of code units that need no escape (letters,
    digits, hyphens; no control character, quote, backslash or surrogate)
    stands in the attached text as it is, between double quotes; the
    identifiers follow each other in their order, separated by commas. *)
Theorem policy_text_verbatim (ids : list jsstring) (p : SstConfig.ResourcePolicy) :
  Forall (Forall (λ c, written_verbatim c = true)) ids →
  SstConfig.policy (JString <$> ids) = Some p →
  JSON_stringify (SstConfig.ResourcePolicy_value p)
  = Some (policy_text_before
          ++ ([Ch.lbracket]
              ++ join [Ch.comma] ((λ id, [Ch.quote] ++ id ++ [Ch.quote]) <$> ids)
              ++ [Ch.rbracket])
          ++ policy_text_after).
Proof.
  intros Hids Hp. rewrite (policy_value_shape _ p Hp).
  apply policy_text_around. rewrite Serialize_array. do 4 f_equal.
  rewrite <- list_fmap_compose. apply Forall_fmap_ext.
  eapply Forall_impl; [exact Hids|]. intros id Hid. simpl.
  unfold element_text. simpl. unfold QuoteJSONString.
  by rewrite quote_units_verbatim.
Qed.

Lemma policy_text_verbatim_witness :
  ∃ p, SstConfig.policy (JString <$> [js "o-aaa111"; js "111111111111"]) = Some p
       ∧ JSON_stringify (SstConfig.ResourcePolicy_value p)
         = Some (policy_text_before ++ json_text "['o-aaa111','111111111111']"
                 ++ policy_text_after).
Proof.
  eexists. split; [reflexivity|].
  rewrite (policy_text_verbatim [js "o-aaa111"; js "111111111111"] _).
  - reflexivity.
  - repeat constructor.
  - reflexivity.
Defined.

(** ** The /debug handlers, continued *)

Lemma handlers_console (c : Debug.context) (sent : result Debug.exception jsvalue) :
  tail (Debug.debug_with_requestContext c sent).1 = (Debug.identity_response sent).1
  ∧ tail (Debug.debug c sent).1 = (Debug.identity_response sent).1.
Proof.
  unfold Debug.debug_with_requestContext, Debug.debug.
  by destruct (Debug.identity_response sent).
Qed.

(** X14: what a handler answers, and what it logs after its first line,
    depends on the outcome of the identity call only: not on the request,
    and not on which of the two handlers runs. *)
Theorem debug_response_independent (c c' : Debug.context)
    (sent : result Debug.exception jsvalue) :
  (Debug.debug c sent).2 = (Debug.debug c' sent).2
  ∧ (Debug.debug_with_requestContext c sent).2 = (Debug.debug c' sent).2
  ∧ tail (Debug.debug c sent).1 = tail (Debug.debug c' sent).1
  ∧ tail (Debug.debug_with_requestContext c sent).1 = tail (Debug.debug c' sent).1.
Proof.
  destruct (handlers_share_result c sent) as [H1 H2].
  destruct (handlers_share_result c' sent) as [_ H2'].
  destruct (handlers_console c sent) as [H3 H4].
  destruct (handlers_console c' sent) as [_ H4'].
  repeat split; congruence.
Qed.

(** X15: the stack of a caught [Error] is logged and never answered: the
    answer is the same whatever the stack, and the error line carries the
    message that is answered, then the stack; for a thrown value that is
    not an [Error] the logged stack is the empty string. *)
Theorem stack_logged_not_returned (c : Debug.context) (error : Debug.exception)
    (msg : jsstring) :
  Debug.errorMsg error = Some msg →
  (∀ message stack stack',
     (Debug.debug c (Throw (Debug.Error message stack))).2
     = (Debug.debug c (Throw (Debug.Error message stack'))).2)
  ∧ tail (Debug.debug c (Throw error)).1
    = [Debug.console_error
         [JString (js "Error retrieving caller identity:"); JString msg;
          JString match error with
                  | Debug.Error _ stack => stack
                  | Debug.Thrown _ => []
                  end]]
  ∧ tail (Debug.debug_with_requestContext c (Throw error)).1
    = tail (Debug.debug c (Throw error)).1.
Proof.
  intros H. destruct (handlers_console c (Throw error)) as [-> ->].
  split; [done|]. split; [|done].
  unfold Debug.identity_response. rewrite H. by destruct error.
Qed.

Lemma stack_logged_not_returned_witness :
  tail (Debug.debug get_debug
          (Throw (Debug.Error (js "timeout") (js "Error: timeout at send")))).1
  = [Debug.console_error
       [JString (js "Error retrieving caller identity:"); JString (js "timeout");
        JString (js "Error: timeout at send")]].
Proof.
  destruct (stack_logged_not_returned get_debug
              (Debug.Error (js "timeout") (js "Error: timeout at send"))
              (js "timeout") eq_refl) as (_ & H & _).
  exact H.
Defined.

(** X16: a handler that returns answers 200 exactly when the identity call
    resolved and 500 exactly when it was rejected; no other status
    occurs. *)
Theorem status_by_outcome (c : Debug.context)
    (sent : result Debug.exception jsvalue) (r : Debug.response) :
  (Debug.debug c sent).2 = Debug.Returned r
  ∨ (Debug.debug_with_requestContext c sent).2 = Debug.Returned r →
  (Debug.status r = 200 ↔ ∃ v, sent = Ok v)
  ∧ (Debug.status r = 500 ↔ ∃ e, sent = Throw e)
  ∧ (Debug.status r = 200 ∨ Debug.status r = 500).
Proof.
  destruct (handlers_share_result c sent) as [-> ->]. intros [H | H];
    (destruct sent as [v|e]; simpl in H;
     [ injection H as <- | destruct (Debug.errorMsg e); [injection H as <- | done] ];
     simpl; repeat split; try done; try (by eexists); try (by intros [? [=]]);
     try (by left); try (by right)).
Qed.

Lemma status_by_outcome_witness :
  ∃ r, (Debug.debug get_debug (Throw (Debug.Thrown JNull))).2 = Debug.Returned r
       ∧ Debug.status r = 500.
Proof.
  eexists. split; [reflexivity|].
  destruct (status_by_outcome get_debug (Throw (Debug.Thrown JNull)) _
              (or_introl eq_refl)) as (_ & H & _).
  apply H. by eexists.
Defined.

(** X17: a rejection with a primitive value (undefined, null, a boolean,
    a number, a string) is always answered, by both handlers, with status
    500 and the text [String] gives for it: "undefined", "null", "true" or
    "false", the digits of the number, the string itself. *)
Theorem debug_answers_primitives (c : Debug.context) (v : jsvalue) :
  is_primitive v = true →
  let text := match v with
              | JUndefined => js "undefined"
              | JNull => js "null"
              | JBool true => js "true"
              | JBool false => js "false"
              | JNumber n => Number_toString n
              | JString s => s
              | JArray _ | JObject _ => []
              end in
  let failed := Debug.Returned
    {| Debug.status := 500;
       Debug.json := JObject
         [ (js "message", JString (js "Error retrieving caller identity"));
           (js "error", JString text) ] |} in
  (Debug.debug c (Throw (Debug.Thrown v))).2 = failed
  ∧ (Debug.debug_with_requestContext c (Throw (Debug.Thrown v))).2 = failed.
Proof.
  intros Hv text failed.
  destruct (handlers_share_result c (Throw (Debug.Thrown v))) as [-> ->].
  assert (ToString v = Some text) as Htext.
  { destruct v as [| | [] | n | s | elems | props]; try done. }
  split; apply (identity_response_failed (Debug.Thrown v) text Htext).
Qed.

Lemma debug_answers_primitives_witness :
  (Debug.debug get_debug (Throw (Debug.Thrown (JNumber (num 503))))).2 =
  Debug.Returned
    {| Debug.status := 500;
       Debug.json := JObject
         [ (js "message", JString (js "Error retrieving caller identity"));
           (js "error", JString (js "503")) ] |}.
Proof.
  destruct (debug_answers_primitives get_debug (JNumber (num 503)) eq_refl)
    as [H _].
  etransitivity; [exact H|]. vm_compute. reflexivity.
Defined.

(** ** JSON.parse and white space around the text *)

Lemma skip_ws_app (s t r : jsstring) (c : N) :
  skip_ws s = c :: r → skip_ws (s ++ t) = c :: r ++ t.
Proof.
  induction s as [|d s IH]; [done|]. simpl.
  destruct (is_json_ws d); [exact IH|]. by intros [= <- <-].
Qed.

Lemma skip_ws_spaces (a s : jsstring) :
  Forall (λ c, is_json_ws c = true) a → skip_ws (a ++ s) = skip_ws s.
Proof. induction 1 as [|c a Hc _ IH]; [done|]. simpl. by rewrite Hc. Qed.

Lemma parse_string_body_app (s t x rest : jsstring) :
  parse_string_body s = Some (x, rest) →
  parse_string_body (s ++ t) = Some (x, rest ++ t).
Proof.
  remember (length s) as n eqn:Hn. revert s x rest Hn.
  induction (lt_wf n) as [n _ IH]. intros s x rest -> H.
  destruct s as [|c r]; [done|].
  assert (∀ r' u, (length r' < length (c :: r))%nat →
                  ('(t', rest') ← parse_string_body r'; Some (u :: t', rest'))
                  = Some (x, rest) →
                  ('(t', rest') ← parse_string_body (r' ++ t); Some (u :: t', rest'))
                  = Some (x, rest ++ t)) as Hrec.
  { intros r' u Hlen Hr'.
    destruct (parse_string_body r') as [[t' rest']|] eqn:Hp; [|done].
    simpl in Hr'. injection Hr' as <- <-.
    by rewrite (IH _ Hlen r' t' rest' eq_refl Hp). }
  simpl in H |- *.
  destruct (c =? Ch.quote)%N; [by injection H as <- <- |].
  destruct (c =? Ch.backslash)%N.
  - destruct r as [|e r1]; [done|]. simpl in H |- *.
    destruct (e =? Ch.quote)%N; [apply Hrec in H; [exact H | simpl; lia] |].
    destruct (e =? Ch.backslash)%N; [apply Hrec in H; [exact H | simpl; lia] |].
    destruct (e =? Ch.slash)%N; [apply Hrec in H; [exact H | simpl; lia] |].
    destruct (e =? 98)%N; [apply Hrec in H; [exact H | simpl; lia] |].
    destruct (e =? 102)%N; [apply Hrec in H; [exact H | simpl; lia] |].
    destruct (e =? 110)%N; [apply Hrec in H; [exact H | simpl; lia] |].
    destruct (e =? 114)%N; [apply Hrec in H; [exact H | simpl; lia] |].
    destruct (e =? 116)%N; [apply Hrec in H; [exact H | simpl; lia] |].
    destruct (e =? 117)%N; [|done].
    destruct r1 as [|h3 [|h2 [|h1 [|h0 r2]]]]; try done. simpl in H |- *.
    repeat match type of H with
           | context [hex_value ?h] => destruct (hex_value h); simpl in H |- *; [|done]
           end.
    apply Hrec in H; [exact H | simpl; lia].
  - destruct (c <? 32)%N; [done|]. apply Hrec in H; [exact H | simpl; lia].
Qed.

Lemma ws_not_digit (c : N) : is_json_ws c = true → is_digit c = false.
Proof.
  unfold is_json_ws. intros H.
  repeat (apply orb_true_iff in H as [H | H]); apply N.eqb_eq in H as ->; done.
Qed.

Lemma take_digits_app (s t : jsstring) (acc cnt : Z) :
  Forall (λ c, is_json_ws c = true) t →
  take_digits acc cnt (s ++ t) =
  let '(v, n, rest) := take_digits acc cnt s in (v, n, rest ++ t).
Proof.
  intros Ht. revert acc cnt. induction s as [|c s IH]; intros acc cnt; simpl.
  - destruct Ht as [|w t Hw _]; [done|]. simpl. by rewrite (ws_not_digit w Hw).
  - destruct (is_digit c); [apply IH | done].
Qed.

(** The tail of a number literal: fraction and exponent, after the integer
    part [ival], on [s2]. *)
Lemma parse_number_tail_app (neg : bool) (ival : Z) (s2 t : jsstring) :
  Forall (λ c, is_json_ws c = true) t →
  ∀ n rest,
  ('(digits, scale, s3) ← match s2 with
                 | c :: r =>
                     if (c =? Ch.dot)%N then
                       let '(v, n, rest) := take_digits ival 0 r in
                       if n =? 0 then None else Some (v, n, rest)
                     else Some (ival, 0, s2)
                 | [] => Some (ival, 0, s2)
                 end;
   '(ex, s4) ← match s3 with
                 | c :: r =>
                     if ((c =? 101) || (c =? 69))%N then
                       let '(eneg, r1) :=
                         match r with
                         | g :: r' => if (g =? Ch.minus)%N then (true, r')
                                      else if (g =? Ch.plus)%N then (false, r')
                                      else (false, r)
                         | [] => (false, r)
                         end in
                       let '(v, n, rest) := take_digits 0 0 r1 in
                       if n =? 0 then None
                       else Some (if eneg then - v else v, rest)
                     else Some (0, s3)
                 | [] => Some (0, s3)
                 end;
   Some (decimal_to_double neg digits (ex - scale), s4)) = Some (n, rest) →
  ('(digits, scale, s3) ← match s2 ++ t with
                 | c :: r =>
                     if (c =? Ch.dot)%N then
                       let '(v, n, rest) := take_digits ival 0 r in
                       if n =? 0 then None else Some (v, n, rest)
                     else Some (ival, 0, s2 ++ t)
                 | [] => Some (ival, 0, s2 ++ t)
                 end;
   '(ex, s4) ← match s3 with
                 | c :: r =>
                     if ((c =? 101) || (c =? 69))%N then
                       let '(eneg, r1) :=
                         match r with
                         | g :: r' => if (g =? Ch.minus)%N then (true, r')
                                      else if (g =? Ch.plus)%N then (false, r')
                                      else (false, r)
                         | [] => (false, r)
                         end in
                       let '(v, n, rest) := take_digits 0 0 r1 in
                       if n =? 0 then None
                       else Some (if eneg then - v else v, rest)
                     else Some (0, s3)
                 | [] => Some (0, s3)
                 end;
   Some (decimal_to_double neg digits (ex - scale), s4)) = Some (n, rest ++ t).
Proof.
  intros Ht n rest H.
  assert (∀ digits scale s3,
    ('(ex, s4) ← match s3 with
                 | c :: r =>
                     if ((c =? 101) || (c =? 69))%N then
                       let '(eneg, r1) :=
                         match r with
                         | g :: r' => if (g =? Ch.minus)%N then (true, r')
                                      else if (g =? Ch.plus)%N then (false, r')
                                      else (false, r)
                         | [] => (false, r)
                         end in
                       let '(v, n, rest) := take_digits 0 0 r1 in
                       if n =? 0 then None
                       else Some (if eneg then - v else v, rest)
                     else Some (0, s3)
                 | [] => Some (0, s3)
                 end;
     Some (decimal_to_double neg digits (ex - scale), s4)) = Some (n, rest) →
    ('(ex, s4) ← match s3 ++ t with
                 | c :: r =>
                     if ((c =? 101) || (c =? 69))%N then
                       let '(eneg, r1) :=
                         match r with
                         | g :: r' => if (g =? Ch.minus)%N then (true, r')
                                      else if (g =? Ch.plus)%N then (false, r')
                                      else (false, r)
                         | [] => (false, r)
                         end in
                       let '(v, n, rest) := take_digits 0 0 r1 in
                       if n =? 0 then None
                       else Some (if eneg then - v else v, rest)
                     else Some (0, s3 ++ t)
                 | [] => Some (0, s3 ++ t)
                 end;
     Some (decimal_to_double neg digits (ex - scale), s4)) = Some (n, rest ++ t))
    as Hexp.
  { intros digits scale s3 H3. destruct s3 as [|c3 r3].
    - simpl in H3. injection H3 as <- <-.
      destruct Ht as [|w t Hw _]; [done|]. simpl.
      assert (((w =? 101) || (w =? 69))%N = false) as ->; [|done].
      unfold is_json_ws in Hw.
      repeat (apply orb_true_iff in Hw as [Hw | Hw]); apply N.eqb_eq in Hw as ->;
        done.
    - simpl app. cbv beta iota in H3 |- *.
      destruct ((c3 =? 101) || (c3 =? 69))%N; [|by simpl in *; simplify_eq].
      destruct r3 as [|g r']; [done|]. simpl app. cbv beta iota in H3 |- *.
      destruct (g =? Ch.minus)%N.
      + rewrite take_digits_app by done.
        destruct (take_digits 0 0 r') as [[v k] rest'].
        destruct (k =? 0); [done|]. simpl in *. by simplify_eq.
      + destruct (g =? Ch.plus)%N.
        * rewrite take_digits_app by done.
          destruct (take_digits 0 0 r') as [[v k] rest'].
          destruct (k =? 0); [done|]. simpl in *. by simplify_eq.
        * change (g :: r' ++ t) with ((g :: r') ++ t).
          rewrite (take_digits_app (g :: r')) by done.
          destruct (take_digits 0 0 (g :: r')) as [[v k] rest'].
          destruct (k =? 0); [done|]. simpl in *. by simplify_eq. }
  destruct s2 as [|c2 r2].
  - apply (Hexp ival 0 []) in H.
    destruct Ht as [|w t Hw Ht]; [by rewrite app_nil_r in *|].
    simpl app. cbv beta iota.
    assert ((w =? Ch.dot)%N = false) as ->; [|exact H].
    unfold is_json_ws in Hw.
    repeat (apply orb_true_iff in Hw as [Hw | Hw]); apply N.eqb_eq in Hw as ->;
      done.
  - simpl app. cbv beta iota in H |- *.
    destruct (c2 =? Ch.dot)%N.
    + rewrite take_digits_app by done.
      destruct (take_digits ival 0 r2) as [[v k] rest'].
      destruct (k =? 0); [done|]. by apply (Hexp v k rest') in H.
    + by apply (Hexp ival 0 (c2 :: r2)) in H.
Qed.

Lemma parse_number_app (s t : jsstring) (n : number) (rest : jsstring) :
  Forall (λ c, is_json_ws c = true) t →
  parse_number s = Some (n, rest) →
  parse_number (s ++ t) = Some (n, rest ++ t).
Proof.
  intros Ht H. unfold parse_number in H |- *.
  destruct s as [|c r]; [done|]. simpl app. cbv beta iota in H |- *.
  destruct (c =? Ch.minus)%N.
  - destruct r as [|d r']; [done|]. simpl app. cbv beta iota in H |- *.
    destruct (d =? Ch.zero)%N; [by apply (parse_number_tail_app true 0 r')|].
    destruct (is_digit d); [|done].
    change (d :: r' ++ t) with ((d :: r') ++ t).
    rewrite (take_digits_app (d :: r')) by done.
    destruct (take_digits 0 0 (d :: r')) as [[v k] s2].
    by apply (parse_number_tail_app true v s2).
  - destruct (c =? Ch.zero)%N; [by apply (parse_number_tail_app false 0 r)|].
    destruct (is_digit c); [|done].
    change (c :: r ++ t) with ((c :: r) ++ t).
    rewrite (take_digits_app (c :: r)) by done.
    destruct (take_digits 0 0 (c :: r)) as [[v k] s2].
    by apply (parse_number_tail_app false v s2).
Qed.

Lemma strip_prefix_app (p s t rest : jsstring) :
  strip_prefix p s = Some rest → strip_prefix p (s ++ t) = Some (rest ++ t).
Proof.
  revert s. induction p as [|a p IH]; intros [|b s]; simpl; try done.
  - by intros [= <-].
  - by intros [= <-].
  - destruct (a =? b)%N; [apply IH | done].
Qed.

Lemma strip_prefix_head (p s rest : jsstring) (a c : N) :
  strip_prefix (a :: p) (c :: s) = Some rest → c = a.
Proof. simpl. destruct (N.eqb_spec a c); [done | discriminate]. Qed.

Lemma strip_prefix_mismatch (p s : jsstring) (a c : N) :
  a ≠ c → strip_prefix (a :: p) (c :: s) = None.
Proof. intros H. simpl. by destruct (N.eqb_spec a c). Qed.

Lemma parse_number_head (c : N) (r : jsstring) (x : number * jsstring) :
  parse_number (c :: r) = Some x → c = Ch.minus ∨ is_digit c = true.
Proof.
  unfold parse_number. cbv beta iota.
  destruct (N.eqb_spec c Ch.minus) as [-> | _]; [by left|].
  destruct (N.eqb_spec c Ch.zero) as [-> | _]; [by right|].
  destruct (is_digit c); [by right | done].
Qed.

(** The literal and number branch of [parse_value], on an extended text. *)
Lemma parse_atom_app (c : N) (r t : jsstring) (v : jsvalue) (rest : jsstring) :
  Forall (λ c, is_json_ws c = true) t →
  match strip_prefix (js "true") (c :: r),
        strip_prefix (js "false") (c :: r),
        strip_prefix (js "null") (c :: r) with
  | Some rest, _, _ => Some (JBool true, rest)
  | _, Some rest, _ => Some (JBool false, rest)
  | _, _, Some rest => Some (JNull, rest)
  | None, None, None =>
      '(n, rest) ← parse_number (c :: r); Some (JNumber n, rest)
  end = Some (v, rest) →
  match strip_prefix (js "true") (c :: r ++ t),
        strip_prefix (js "false") (c :: r ++ t),
        strip_prefix (js "null") (c :: r ++ t) with
  | Some rest, _, _ => Some (JBool true, rest)
  | _, Some rest, _ => Some (JBool false, rest)
  | _, _, Some rest => Some (JNull, rest)
  | None, None, None =>
      '(n, rest) ← parse_number (c :: r ++ t); Some (JNumber n, rest)
  end = Some (v, rest ++ t).
Proof.
  intros Ht H. change (c :: r ++ t) with ((c :: r) ++ t).
  destruct (strip_prefix (js "true") (c :: r)) as [r1|] eqn:H1.
  { injection H as <- <-.
    by rewrite (strip_prefix_app (js "true") (c :: r) t _ H1). }
  destruct (strip_prefix (js "false") (c :: r)) as [r2|] eqn:H2.
  { injection H as <- <-.
    apply strip_prefix_head in H2 as Hc. subst c.
    by rewrite (strip_prefix_app (js "false") (_ :: r) t _ H2). }
  destruct (strip_prefix (js "null") (c :: r)) as [r3|] eqn:H3.
  { injection H as <- <-.
    apply strip_prefix_head in H3 as Hc. subst c.
    by rewrite (strip_prefix_app (js "null") (_ :: r) t _ H3). }
  destruct (parse_number (c :: r)) as [[n rest']|] eqn:Hn; [|done].
  simpl in H. injection H as <- <-.
  rewrite (parse_number_app (c :: r) t n rest' Ht Hn).
  apply parse_number_head in Hn as [-> | Hd]; [reflexivity|].
  unfold is_digit, Ch.zero, Ch.nine in Hd.
  apply andb_true_iff in Hd as [Hlo Hhi].
  apply N.leb_le in Hlo. apply N.leb_le in Hhi.
  assert (strip_prefix (js "true") ((c :: r) ++ t) = None) as ->.
  { apply (strip_prefix_mismatch (js "rue") (r ++ t) 116 c). lia. }
  assert (strip_prefix (js "false") ((c :: r) ++ t) = None) as ->.
  { apply (strip_prefix_mismatch (js "alse") (r ++ t) 102 c). lia. }
  assert (strip_prefix (js "null") ((c :: r) ++ t) = None) as ->.
  { apply (strip_prefix_mismatch (js "ull") (r ++ t) 110 c). lia. }
  reflexivity.
Qed.

(** A text that parses still parses, to the same value, when white space is
    put after it. *)
Lemma parse_value_app (t : jsstring) (fuel : nat) :
  Forall (λ c, is_json_ws c = true) t →
  (∀ s v rest, parse_value fuel s = Some (v, rest) →
               parse_value fuel (s ++ t) = Some (v, rest ++ t))
  ∧ (∀ s l rest, parse_elements fuel s = Some (l, rest) →
                 parse_elements fuel (s ++ t) = Some (l, rest ++ t))
  ∧ (∀ s l rest, parse_members fuel s = Some (l, rest) →
                 parse_members fuel (s ++ t) = Some (l, rest ++ t)).
Proof.
  intros Ht. induction fuel as [|fuel (IHv & IHe & IHm)]; [done|].
  split; [|split].
  - intros s v rest H. rewrite parse_value_step in H |- *.
    destruct (skip_ws s) as [|c r] eqn:Hs; [done|].
    rewrite (skip_ws_app s t r c Hs).
    destruct (c =? Ch.quote)%N.
    { destruct (parse_string_body r) as [[str rest']|] eqn:Hstr; [|done].
      simpl in H. injection H as <- <-.
      by rewrite (parse_string_body_app r t str rest' Hstr). }
    destruct (c =? Ch.lbracket)%N.
    { destruct (skip_ws r) as [|c' r'] eqn:Hr; [done|].
      rewrite (skip_ws_app r t r' c' Hr).
      destruct (c' =? Ch.rbracket)%N; [by injection H as <- <- |].
      destruct (parse_elements fuel r) as [[l rest']|] eqn:He; [|done].
      simpl in H. injection H as <- <-. by rewrite (IHe r l rest' He). }
    destruct (c =? Ch.lbrace)%N.
    { destruct (skip_ws r) as [|c' r'] eqn:Hr; [done|].
      rewrite (skip_ws_app r t r' c' Hr).
      destruct (c' =? Ch.rbrace)%N; [by injection H as <- <- |].
      destruct (parse_members fuel r) as [[l rest']|] eqn:Hm; [|done].
      simpl in H. injection H as <- <-. by rewrite (IHm r l rest' Hm). }
    by apply parse_atom_app.
  - intros s l rest H. rewrite parse_elements_step in H |- *.
    destruct (parse_value fuel s) as [[v r]|] eqn:Hv; [|done].
    rewrite (IHv s v r Hv). simpl in H |- *.
    destruct (skip_ws r) as [|c r'] eqn:Hr; [done|].
    rewrite (skip_ws_app r t r' c Hr).
    destruct (c =? Ch.comma)%N.
    + destruct (parse_elements fuel r') as [[l' rest']|] eqn:He; [|done].
      simpl in H. injection H as <- <-. by rewrite (IHe r' l' rest' He).
    + destruct (c =? Ch.rbracket)%N; [|done]. by injection H as <- <-.
  - intros s l rest H. rewrite parse_members_step_ws in H |- *.
    destruct (skip_ws s) as [|c r] eqn:Hs; [done|].
    rewrite (skip_ws_app s t r c Hs).
    destruct (c =? Ch.quote)%N; [|done].
    destruct (parse_string_body r) as [[k r1]|] eqn:Hk; [|done].
    rewrite (parse_string_body_app r t k r1 Hk). simpl in H |- *.
    destruct (skip_ws r1) as [|c1 r2] eqn:Hr1; [done|].
    rewrite (skip_ws_app r1 t r2 c1 Hr1).
    destruct (c1 =? Ch.colon)%N; [|done].
    destruct (parse_value fuel r2) as [[v r3]|] eqn:Hv; [|done].
    rewrite (IHv r2 v r3 Hv). simpl in H |- *.
    destruct (skip_ws r3) as [|c3 r4] eqn:Hr3; [done|].
    rewrite (skip_ws_app r3 t r4 c3 Hr3).
    destruct (c3 =? Ch.comma)%N.
    + destruct (parse_members fuel r4) as [[l' rest']|] eqn:Hm; [|done].
      simpl in H. injection H as <- <-. by rewrite (IHm r4 l' rest' Hm).
    + destruct (c3 =? Ch.rbrace)%N; [|done]. by injection H as <- <-.
Qed.

Lemma skip_ws_all (t : jsstring) :
  Forall (λ c, is_json_ws c = true) t → skip_ws t = [].
Proof. induction 1 as [|c t Hc _ IH]; [done|]. simpl. by rewrite Hc. Qed.

(** [JSON.parse] ignores white space before and after the text. *)
Lemma JSON_parse_padded (a s b : jsstring) (v : jsvalue) :
  Forall (λ c, is_json_ws c = true) a →
  Forall (λ c, is_json_ws c = true) b →
  JSON_parse s = Some v → JSON_parse (a ++ s ++ b) = Some v.
Proof.
  intros Ha Hb H. unfold JSON_parse in H.
  destruct (parse_value _ s) as [[v' rest]|] eqn:Hp; [|done]. simpl in H.
  destruct (skip_ws rest) as [|c r] eqn:Hrest; [|done]. injection H as <-.
  destruct (parse_value_app b (2 * length s + 2) Hb) as (Hv & _ & _).
  apply Hv in Hp.
  apply (JSON_parse_fuel (2 * length s + 2) _ _ (rest ++ b)).
  - assert (∀ x, parse_value (S (2 * length s + 1)) (a ++ x)
                 = parse_value (S (2 * length s + 1)) x) as Hlead.
    { intros x. by rewrite !parse_value_step, skip_ws_spaces. }
    replace (2 * length s + 2)%nat with (S (2 * length s + 1)) in * by lia.
    by rewrite Hlead.
  - clear Hp. induction rest as [|d rest IH]; simpl in *.
    + by apply skip_ws_all.
    + destruct (is_json_ws d); [by apply IH | done].
Qed.

Lemma read_accounts_file_Ok (w : SstConfig.platform) (path : jsstring)
    (accounts : list jsvalue) :
  SstConfig.read_accounts_file w path = Ok accounts →
  ∃ data, SstConfig.files w !! path = Some data
          ∧ JSON_parse data = Some (JArray accounts).
Proof.
  unfold SstConfig.read_accounts_file, SstConfig.readFileSync, SstConfig.parse.
  destruct (SstConfig.files w !! path) as [data|]; [|done]. simpl.
  destruct (JSON_parse data) as [v|] eqn:Hp; [|done]. simpl.
  destruct v; try done. intros [= <-]. by exists data.
Qed.

(** X18: white space before and after the content of the file (a final
    line break, say) does not change the allow-list: a content that is
    accepted is accepted with it, and gives the same list. *)
Theorem file_padding_ignored (w w' : SstConfig.platform)
    (path a data b : jsstring) (accounts : list jsvalue) :
  Forall (λ c, is_json_ws c = true) a →
  Forall (λ c, is_json_ws c = true) b →
  path ≠ [] →
  SstConfig.env w !! FILE = Some path → SstConfig.files w !! path = Some data →
  SstConfig.env w' !! FILE = Some path →
  SstConfig.files w' !! path = Some (a ++ data ++ b) →
  SstConfig.allowedAccounts w = Ok accounts →
  SstConfig.allowedAccounts w' = Ok accounts.
Proof.
  intros Ha Hb Hne Henv Hfile Henv' Hfile' Hacc.
  rewrite (allowedAccounts_file w path Henv Hne) in Hacc.
  apply read_accounts_file_Ok in Hacc as (data' & Hd & Hparse).
  rewrite Hfile in Hd. injection Hd as <-.
  rewrite (allowedAccounts_file w' path Henv' Hne).
  apply (read_accounts_file_array w' path (a ++ data ++ b)); [done|].
  by apply JSON_parse_padded.
Qed.

Lemma file_padding_ignored_witness :
  SstConfig.allowedAccounts
    (file_platform accounts_json
       ([32; 10]%N ++ json_text "['o-aaa111', 'o-bbb222']" ++ [13; 10]%N) ∅ [])
  = Ok [JString (js "o-aaa111"); JString (js "o-bbb222")].
Proof.
  apply (file_padding_ignored
           (file_platform accounts_json (json_text "['o-aaa111', 'o-bbb222']") ∅ [])
           _ accounts_json [32; 10]%N (json_text "['o-aaa111', 'o-bbb222']")
           [13; 10]%N).
  - repeat constructor.
  - repeat constructor.
  - discriminate.
  - reflexivity.
  - reflexivity.
  - reflexivity.
  - reflexivity.
  - vm_compute. reflexivity.
Defined.

(** X19: when the file variable names a file that cannot be read, the run
    exits with code 1 and logs the read error, having declared only the two
    functions; an inline list, valid or not, is no fallback. *)
Theorem unreadable_file_aborts (w : SstConfig.platform) (path : jsstring)
    (inline : option jsstring) :
  SstConfig.env w !! FILE = Some path → path ≠ [] →
  SstConfig.files w !! path = None →
  let w_inline :=
    with_env w (partial_alter (λ _, inline) INLINE (SstConfig.env w)) in
  SstConfig.run w_inline =
  SstConfig.Exited 1
    [ SstConfig.Function (js "HonoVanillaLambda") true (js "src/index.handler");
      SstConfig.Function (js "HonoDebugLambda") false (js "src/debug.handler") ]
    [ SstConfig.console_error_reading SstConfig.ReadFailed ].
Proof.
  intros Henv Hne Hfile w_inline. unfold SstConfig.run.
  rewrite (allowedAccounts_file w_inline path); [| | done].
  - unfold SstConfig.read_accounts_file, SstConfig.readFileSync. simpl.
    by rewrite Hfile.
  - simpl. by rewrite lookup_partial_alter_ne.
Qed.

Lemma unreadable_file_aborts_witness :
  SstConfig.run (provision (Some accounts_json) (Some (js "o-aaa111")) ∅) =
  SstConfig.Exited 1
    [ SstConfig.Function (js "HonoVanillaLambda") true (js "src/index.handler");
      SstConfig.Function (js "HonoDebugLambda") false (js "src/debug.handler") ]
    [ SstConfig.console_error_reading SstConfig.ReadFailed ].
Proof.
  pose proof (unreadable_file_aborts (provision (Some accounts_json) None ∅)
                accounts_json (Some (js "o-aaa111")) eq_refl
                ltac:(discriminate) eq_refl) as H.
  etransitivity; [|exact H]. reflexivity.
Defined.
